(** * NETCONF error translation of netopeer2 (src/err_netconf.c)

    A shallow embedding of the error translator: the C string functions the
    translator calls, the sink it writes to as an explicit state, and the
    eight public operations, followed by the properties of the translator. *)

From Stdlib Require Import Ascii String List ZArith Lia Bool.
From Stdlib Require Import DecimalString DecimalN.
From Stdlib Require DecimalFacts.
Import ListNotations.

Local Open Scope list_scope.

(** ** C strings

    A C string is the list of its characters before the terminating NUL.  A
    pointer into a string is the offset from its first character, so that
    [skipn off s] is the string the pointer designates. *)

Module CString.

Definition cstring := list ascii.

(** String literals of the source. *)
Definition lit (s : string) : cstring := list_ascii_of_string s.

Definition strlen (s : cstring) : Z := Z.of_nat (length s).

(** The double quote character (code 34). *)
Definition dquote : ascii := ascii_of_nat 34.


(** [size_t] is 64 bits wide; subtraction of two values of the type wraps. *)
Definition SIZE_WIDTH : Z := 64.

Definition size_sub (a b : Z) : Z :=
  if (b <=? a)%Z then (a - b)%Z else (a - b + 2 ^ SIZE_WIDTH)%Z.

(** [int] is 32 bits wide. *)
Definition INT_MAX : Z := 2147483647.
Definition INT_MIN : Z := -2147483648.
Definition LONG_MAX : Z := 9223372036854775807.
Definition LONG_MIN : Z := -9223372036854775808.

(** Conversion of a [long] to [int] keeps the low 32 bits. *)
Definition int_of_long (z : Z) : Z :=
  ((z + 2 ^ 31) mod 2 ^ 32 - 2 ^ 31)%Z.

(** [strndup s n]: a copy of [s] when it has at most [n] characters, of its
    first [n] characters otherwise. *)
Definition strndup (s : cstring) (n : Z) : cstring :=
  if (strlen s <=? n)%Z then s else firstn (Z.to_nat n) s.

(** [strncmp s1 s2 n]: the difference of the first characters that differ
    among the first [n], the end of a string counting as character 0. *)
Fixpoint strncmp (s1 s2 : cstring) (n : nat) {struct n} : Z :=
  match n with
  | O => 0%Z
  | S n' =>
      match s1, s2 with
      | [], [] => 0%Z
      | [], c2 :: _ => (- Z.of_nat (nat_of_ascii c2))%Z
      | c1 :: _, [] => Z.of_nat (nat_of_ascii c1)
      | c1 :: t1, c2 :: t2 =>
          if Ascii.eqb c1 c2 then strncmp t1 t2 n'
          else (Z.of_nat (nat_of_ascii c1) - Z.of_nat (nat_of_ascii c2))%Z
      end
  end.

(** Whether [s] begins with [p]. *)
Fixpoint starts_with (p s : cstring) : bool :=
  match p, s with
  | [], _ => true
  | _ :: _, [] => false
  | c :: p', d :: s' => Ascii.eqb c d && starts_with p' s'
  end.

(** [strstr hay needle]: the offset of the first occurrence of [needle]. *)
Fixpoint strstr (hay needle : cstring) : option nat :=
  if starts_with needle hay then Some O
  else match hay with
       | [] => None
       | _ :: t => option_map S (strstr t needle)
       end.

(** [strchr s c]: the offset of the first [c] in [s]. *)
Fixpoint strchr (s : cstring) (c : ascii) : option nat :=
  match s with
  | [] => None
  | x :: t => if Ascii.eqb x c then Some O else option_map S (strchr t c)
  end.

(** [strrchr s c]: the offset of the last [c] in [s]. *)
Fixpoint strrchr (s : cstring) (c : ascii) : option nat :=
  match s with
  | [] => None
  | x :: t =>
      match strrchr t c with
      | Some i => Some (S i)
      | None => if Ascii.eqb x c then Some O else None
      end
  end.

(** [isspace] and [isdigit] of the C locale. *)
Definition isspace (c : ascii) : bool :=
  let n := nat_of_ascii c in
  Nat.eqb n 32 || (Nat.leb 9 n && Nat.leb n 13).

Definition isdigit (c : ascii) : bool :=
  let n := nat_of_ascii c in
  Nat.leb 48 n && Nat.leb n 57.

Definition digit_val (c : ascii) : Z := Z.of_nat (nat_of_ascii c - 48).

Fixpoint skip_spaces (s : cstring) : cstring :=
  match s with
  | c :: t => if isspace c then skip_spaces t else s
  | [] => []
  end.

Fixpoint digits_value (s : cstring) (acc : Z) : Z :=
  match s with
  | c :: t => if isdigit c then digits_value t (10 * acc + digit_val c)%Z else acc
  | [] => acc
  end.

(** [strtol s NULL 10]: leading white space, an optional sign, then digits;
    a value outside [long] is replaced by the nearest bound. *)
Definition strtol (s : cstring) : Z :=
  let s1 := skip_spaces s in
  let v :=
    match s1 with
    | c :: t =>
        if Ascii.eqb c "-"%char then (- digits_value t 0)%Z
        else if Ascii.eqb c "+"%char then digits_value t 0
        else digits_value s1 0
    | [] => 0%Z
    end in
  Z.max LONG_MIN (Z.min LONG_MAX v).

(** [atoi s] is [(int) strtol(s, NULL, 10)]. *)
Definition atoi (s : cstring) : Z := int_of_long (strtol s).

(** [sprintf] with the conversion [PRIu32]: the decimal digits of the
    32-bit value. *)
Definition sprintf_u32 (v : Z) : cstring :=
  lit (NilZero.string_of_uint (N.to_uint (Z.to_N (v mod 2 ^ 32)))).

End CString.

Import CString.

(** ** Data model *)

(** One error of a sysrepo error record ([sr_error_info_err_t]). *)
Record sr_error_info_err_t := {
  err_code : Z;
  message : cstring;
  error_format : option cstring;
  error_data : option cstring
}.

(** A sysrepo error record ([sr_error_info_t]): [err_first] is [err[0]], the
    only error the translator reads; a record holds at least one error. *)
Record sr_error_info_t := {
  err_first : sr_error_info_err_t;
  err_rest : list sr_error_info_err_t
}.

(** The NETCONF error handed to [sr_session_set_netconf_error]: the tag,
    application tag, path and message arguments, and the pairs of the
    variadic info elements in the order they are passed.  [None] is a NULL
    argument. *)
Record nc_error := {
  error_type : cstring;
  error_tag : cstring;
  error_app_tag : option cstring;
  error_path : option cstring;
  error_message : option cstring;
  error_info : list (cstring * cstring)
}.

(** What a session receives as its error: an error built by the translator,
    or the copy of another session's error record. *)
Inductive sink_event :=
| SetNetconfError (e : nc_error)
| DupError (info : sr_error_info_t).

(** A sysrepo session: the error record of its last failed operation and
    the errors set on it, oldest first. *)
Record sr_session_ctx_t := {
  sess_err_info : option sr_error_info_t;
  sess_ev_err : list sink_event
}.

Definition push_event (ev : sink_event) (s : sr_session_ctx_t) : sr_session_ctx_t :=
  {| sess_err_info := sess_err_info s; sess_ev_err := sess_ev_err s ++ [ev] |}.

(** ** Effects

    The operations write to the event session [ev_sess], which is threaded as
    the state.  A failed [assert] aborts the process; an operation C leaves
    undefined (arithmetic on a NULL pointer, a read past the end of a string)
    is a fault of its own. *)

Inductive fault := AssertionFailed | UndefinedBehaviour.

Definition M (A : Type) : Type := sr_session_ctx_t -> fault + (A * sr_session_ctx_t).

Definition ret {A} (a : A) : M A := fun s => inr (a, s).

Definition bind {A B} (c : M A) (k : A -> M B) : M B :=
  fun s => match c s with
           | inl f => inl f
           | inr (a, s') => k a s'
           end.

Declare Scope m_scope.
Delimit Scope m_scope with m.
Notation "x <- c ;; k" := (bind c (fun x => k))
  (at level 61, c at next level, right associativity) : m_scope.
Notation "c ;; k" := (bind c (fun _ => k))
  (at level 61, right associativity) : m_scope.
Local Open Scope m_scope.

Definition undefined {A} : M A := fun _ => inl UndefinedBehaviour.

Definition assert (b : bool) : M unit :=
  fun s => if b then inr (tt, s) else inl AssertionFailed.

(** [assert(p)] on a pointer, giving what it points to. *)
Definition assert_nonnull {A} (p : option A) : M A :=
  match p with
  | Some a => ret a
  | None => fun _ => inl AssertionFailed
  end.

(** Arithmetic on, or a library call with, a pointer that must not be NULL. *)
Definition use_ptr {A} (p : option A) : M A :=
  match p with
  | Some a => ret a
  | None => undefined
  end.

(** [--ptr] on a pointer into a string. *)
Definition ptr_pred (off : nat) : M nat :=
  match off with
  | O => undefined
  | S i => ret i
  end.

(** [s[i]]: the terminating NUL at the end of the string, undefined past it. *)
Definition char_at (s : cstring) (i : nat) : M ascii :=
  match nth_error s i with
  | Some c => ret c
  | None => if Nat.eqb i (length s) then ret zero else undefined
  end.

(** The sysrepo calls of the translator. *)
Definition sr_session_get_error (sess : sr_session_ctx_t) : option sr_error_info_t :=
  sess_err_info sess.

Definition sr_session_set_netconf_error (ty tag : cstring) (app_tag path : option cstring)
    (msg : option cstring) (infos : list (cstring * cstring)) : M unit :=
  fun ev_sess =>
    inr (tt, push_event (SetNetconfError
      {| error_type := ty; error_tag := tag; error_app_tag := app_tag;
         error_path := path; error_message := msg; error_info := infos |}) ev_sess).

Definition sr_session_dup_error (src : sr_session_ctx_t) : M unit :=
  fun ev_sess =>
    match sess_err_info src with
    | Some info => inr (tt, push_event (DupError info) ev_sess)
    | None => inr (tt, ev_sess)
    end.

(** [asprintf] of a format with one conversion [%.*s]: the text before it,
    the argument cut at the precision (whole when the precision is
    negative), the text after it.  The call fails when the text is longer
    than [INT_MAX]; its result is not looked at, and [str] then keeps the
    NULL it starts with. *)
Definition asprintf_prec (before : cstring) (prec : Z) (arg after : cstring) :
    option cstring :=
  let out :=
    before ++ (if (prec <? 0)%Z then arg else firstn (Z.to_nat prec) arg) ++ after in
  if (strlen out <=? INT_MAX)%Z then Some out else None.

(** ** The translator *)

Section Translator.

(** A NETCONF session of libnetconf2 and its session ID. *)
Variable nc_session : Type.
Variable nc_session_get_id : nc_session -> Z.

(** Modelled from the spec: the session registry lookup
    [np_get_nc_sess_by_id(sr_id, nc_id, &nc_sess)] is declared in common.h and
    is not part of this file.  It is taken as a parameter; [None] is a failed
    lookup, after which [nc_sess] is NULL. *)
Variable np_get_nc_sess_by_id : Z -> Z -> option nc_session.

Definition np_err_sr2nc_lock_denied (err_info : sr_error_info_t) : M unit :=
  let msg := lit "Access to the requested lock is denied because the lock is currently held by another entity." in
  let str := lit "DS-locked by session " in
  match strstr (message (err_first err_info)) str with
  | None => ret tt
  | Some ptr =>
      let nc_sess :=
        np_get_nc_sess_by_id
          (atoi (skipn (ptr + Z.to_nat (strlen str)) (message (err_first err_info)))) 0 in
      let buf := sprintf_u32 (match nc_sess with
                              | Some s => nc_session_get_id s
                              | None => 0%Z
                              end) in
      sr_session_set_netconf_error (lit "protocol") (lit "lock-denied") None None (Some msg)
        [(lit "session-id", buf)]
  end.

Definition np_err_sr2nc_in_use (err_info : sr_error_info_t) : M unit :=
  let msg := lit "The request requires a resource that already is in use." in
  let str := lit "DS-locked by session " in
  match strstr (message (err_first err_info)) str with
  | None => ret tt
  | Some ptr =>
      let nc_sess :=
        np_get_nc_sess_by_id
          (atoi (skipn (ptr + Z.to_nat (strlen str)) (message (err_first err_info)))) 0 in
      let buf := sprintf_u32 (match nc_sess with
                              | Some s => nc_session_get_id s
                              | None => 0%Z
                              end) in
      sr_session_set_netconf_error (lit "protocol") (lit "in-use") None None (Some msg)
        [(lit "session-id", buf)]
  end.

Definition np_err_sr2nc_same_ds (err_msg : cstring) : M unit :=
  sr_session_set_netconf_error (lit "application") (lit "invalid-value") None None (Some err_msg) [].

Definition np_err_missing_element (elem_name : cstring) : M unit :=
  let msg := lit "An expected element is missing." in
  sr_session_set_netconf_error (lit "protocol") (lit "missing-element") None None (Some msg)
    [(lit "bad-element", elem_name)].

Definition np_err_bad_element (elem_name description : cstring) : M unit :=
  sr_session_set_netconf_error (lit "protocol") (lit "bad-element") None None (Some description)
    [(lit "bad-element", elem_name)].

Definition np_err_invalid_value (description : cstring) (bad_elem_name : option cstring) : M unit :=
  match bad_elem_name with
  | Some name =>
      sr_session_set_netconf_error (lit "application") (lit "invalid-value") None None
        (Some description) [(lit "bad-element", name)]
  | None =>
      sr_session_set_netconf_error (lit "application") (lit "invalid-value") None None
        (Some description) []
  end.

Definition np_err_ntf_sub_no_such_sub (msg : cstring) : M unit :=
  sr_session_set_netconf_error (lit "application") (lit "invalid-value")
    (Some (lit "ietf-subscribed-notifications:no-such-subscription")) None (Some msg) [].

(** The path of [np_err_sr2nc_edit] (the block under its comment "get path"):
    [None] is the NULL the variable [path] starts with. *)
Definition edit_get_path (msg : cstring) : option cstring :=
  let ptr := match strstr msg (lit "data location ") with
             | Some p => Some (p + 14)
             | None => None
             end in
  let ptr := match ptr with
             | Some p => Some p
             | None => match strstr msg (lit "Schema location ") with
                       | Some p => Some (p + 16)
                       | None => None
                       end
             end in
  match ptr with
  | Some p => Some (strndup (skipn p msg) (size_sub (strlen (skipn p msg)) 2))
  | None => None
  end.

(** [!strncmp(s, prefix, n)] *)
Definition strncmp_eq (s prefix : cstring) (n : nat) : bool :=
  (strncmp s prefix n =? 0)%Z.

Definition is_some {A} (o : option A) : bool :=
  match o with Some _ => true | None => false end.

(** The quoted value that starts at [s + off]: [strchr] for the closing
    quote, then [asprintf] with the distance as an [int] precision. *)
Definition quoted_value_message (before : cstring) (s : cstring) (off : nat)
    (after : cstring) : M (option cstring) :=
  ptr <- use_ptr (strchr (skipn off s) dquote) ;;
  ret (asprintf_prec before (int_of_long (Z.of_nat ptr)) (skipn off s) after).

Definition np_err_sr2nc_edit (err_sess : sr_session_ctx_t) : M unit :=
  err_info <- assert_nonnull (sr_session_get_error err_sess) ;;
  let err := err_first err_info in
  let path := edit_get_path (message err) in
  if strncmp_eq (message err) (lit "Unique data leaf(s)") 19 then
    p <- assert_nonnull path ;;
    sr_session_set_netconf_error (lit "protocol") (lit "operation-failed")
      (Some (lit "data-not-unique")) None (Some (lit "Unique constraint violated."))
      [(lit "non-unique", p)]
  else if strncmp_eq (message err) (lit "Too many") 8 then
    p <- assert_nonnull path ;;
    sr_session_set_netconf_error (lit "protocol") (lit "operation-failed")
      (Some (lit "too-many-elements")) (Some p) (Some (lit "Too many elements.")) []
  else if strncmp_eq (message err) (lit "Too few") 7 then
    p <- assert_nonnull path ;;
    sr_session_set_netconf_error (lit "protocol") (lit "operation-failed")
      (Some (lit "too-few-elements")) (Some p) (Some (lit "Too few elements.")) []
  else if strncmp_eq (message err) (lit "Must condition") 14 then
    ptr <- use_ptr (strrchr (message err) "("%char) ;;
    ptr <- ptr_pred ptr ;;
    let str := strndup (message err) (Z.of_nat ptr) in
    p <- assert_nonnull path ;;
    sr_session_set_netconf_error (lit "protocol") (lit "operation-failed")
      (Some (lit "must-violation")) (Some p) (Some str) []
  else if strncmp_eq (message err) (lit "Invalid leafref value") 21
          && is_some (strstr (message err) (lit "no existing target instance")) then
    c <- char_at (message err) 22 ;;
    assert (Ascii.eqb c dquote) ;;
    str <- quoted_value_message (lit "Required leafref target with value " ++ [dquote])
             (message err) 23 (dquote :: lit " missing.") ;;
    p <- assert_nonnull path ;;
    sr_session_set_netconf_error (lit "protocol") (lit "data-missing")
      (Some (lit "instance-required")) (Some p) str []
  else if strncmp_eq (message err) (lit "Invalid instance-identifier") 26
          && is_some (strstr (message err) (lit "required instance not found")) then
    c <- char_at (message err) 28 ;;
    assert (Ascii.eqb c dquote) ;;
    str <- quoted_value_message (lit "Required instance-identifier " ++ [dquote])
             (message err) 29 (dquote :: lit " missing.") ;;
    p <- assert_nonnull path ;;
    sr_session_set_netconf_error (lit "protocol") (lit "data-missing")
      (Some (lit "instance-required")) (Some p) str []
  else if strncmp_eq (message err) (lit "Mandatory choice") 16 then
    p <- use_ptr path ;;
    ptr <- use_ptr (strrchr p "/"%char) ;;
    let str := strndup p (if Nat.eqb ptr 0 then 1 else Z.of_nat ptr) in
    p <- assert_nonnull path ;;
    sr_session_set_netconf_error (lit "protocol") (lit "data-missing")
      (Some (lit "mandatory-choice")) (Some str) (Some (lit "Missing mandatory choice."))
      [(lit "missing-choice", p)]
  else
    sr_session_dup_error err_sess.

(** The public operations with their arguments, and the call of one on the
    event session. *)
Inductive operation :=
| OpLockDenied (err_info : sr_error_info_t)
| OpInUse (err_info : sr_error_info_t)
| OpSameDs (err_msg : cstring)
| OpMissingElement (elem_name : cstring)
| OpBadElement (elem_name description : cstring)
| OpInvalidValue (description : cstring) (bad_elem_name : option cstring)
| OpNtfSubNoSuchSub (msg : cstring)
| OpEdit (err_sess : sr_session_ctx_t).

Definition run_operation (op : operation) : M unit :=
  match op with
  | OpLockDenied err_info => np_err_sr2nc_lock_denied err_info
  | OpInUse err_info => np_err_sr2nc_in_use err_info
  | OpSameDs err_msg => np_err_sr2nc_same_ds err_msg
  | OpMissingElement elem_name => np_err_missing_element elem_name
  | OpBadElement elem_name description => np_err_bad_element elem_name description
  | OpInvalidValue description bad_elem_name => np_err_invalid_value description bad_elem_name
  | OpNtfSubNoSuchSub msg => np_err_ntf_sub_no_such_sub msg
  | OpEdit err_sess => np_err_sr2nc_edit err_sess
  end.

End Translator.


(** ** Notions of the specification *)

(** [s] starts with [p]. *)
Definition has_prefix (p s : cstring) : Prop := exists r, s = p ++ r.

(** [needle] occurs in [hay]. *)
Definition contains (needle hay : cstring) : Prop :=
  exists pre post, hay = pre ++ needle ++ post.

(** [needle] occurs in [hay] at offset [length pre] and at no smaller one. *)
Definition first_occurrence (needle pre post hay : cstring) : Prop :=
  hay = pre ++ needle ++ post /\
  forall k, k < length pre -> ~ has_prefix needle (skipn k hay).

(** A string literal has no NUL inside. *)
Definition no_nul (p : cstring) : bool :=
  forallb (fun c => negb (Ascii.eqb c zero)) p.

(** The marker both lock translators search for, and their message texts. *)
Definition lock_marker : cstring := lit "DS-locked by session ".

Definition lock_denied_text : cstring :=
  lit "Access to the requested lock is denied because the lock is currently held by another entity.".

Definition in_use_text : cstring :=
  lit "The request requires a resource that already is in use.".

(** The invariant the specification states for a structured error. *)
Definition nc_error_wellformed (e : nc_error) : Prop :=
  error_tag e <> [] /\
  (exists m, error_message e = Some m /\ m <> []) /\
  NoDup (map fst (error_info e)).

(** The message of an error built for the diagnostic [diag]: a text that is
    not empty, or the NULL a failed [asprintf] leaves, which takes an
    instance-required error and a diagnostic longer than [INT_MAX - 46]. *)
Definition built_message_ok (diag : cstring) (e : nc_error) : Prop :=
  match error_message e with
  | Some m => m <> []
  | None =>
      error_app_tag e = Some (lit "instance-required") /\
      (INT_MAX < strlen diag + 46)%Z
  end.

(** The events [s'] holds beyond those of [s]. *)
Definition emitted (s s' : sr_session_ctx_t) (out : list sink_event) : Prop :=
  sess_err_info s' = sess_err_info s /\ sess_ev_err s' = sess_ev_err s ++ out.

Definition append_events (out : list sink_event) (s : sr_session_ctx_t) : sr_session_ctx_t :=
  {| sess_err_info := sess_err_info s; sess_ev_err := sess_ev_err s ++ out |}.

(** A computation whose result and events do not depend on the event
    session it runs on. *)
Definition framed {A} (c : M A) : Prop :=
  exists r : fault + (A * list sink_event),
    forall ev, c ev = match r with
                      | inl f => inl f
                      | inr (a, out) => inr (a, append_events out ev)
                      end.

(** The message an operation passes on from its caller, if it does. *)
Definition caller_message (op : operation) : option cstring :=
  match op with
  | OpSameDs err_msg => Some err_msg
  | OpBadElement _ description => Some description
  | OpInvalidValue description _ => Some description
  | OpNtfSubNoSuchSub msg => Some msg
  | _ => None
  end.

(** The diagnostic message [np_err_sr2nc_edit] works on. *)
Definition edit_diagnostic (op : operation) : option cstring :=
  match op with
  | OpEdit err_sess =>
      option_map (fun info => message (err_first info)) (sr_session_get_error err_sess)
  | _ => None
  end.

(** What the branches of [np_err_sr2nc_edit] require of the message: the
    pointers its asserts test and the ones it computes with. *)
Definition edit_preconditions (msg : cstring) : Prop :=
  let path := edit_get_path msg in
  (has_prefix (lit "Unique data leaf(s)") msg \/ has_prefix (lit "Too many") msg \/
   has_prefix (lit "Too few") msg -> path <> None) /\
  (has_prefix (lit "Must condition") msg -> In "("%char msg /\ path <> None) /\
  (has_prefix (lit "Invalid leafref value") msg ->
   contains (lit "no existing target instance") msg ->
   nth_error msg 22 = Some dquote /\ In dquote (skipn 23 msg) /\ path <> None) /\
  (has_prefix (lit "Invalid instance-identifie") msg ->
   contains (lit "required instance not found") msg ->
   nth_error msg 28 = Some dquote /\ In dquote (skipn 29 msg) /\ path <> None) /\
  (has_prefix (lit "Mandatory choice") msg ->
   exists p, path = Some p /\ In "/"%char p).

(** Test data: an error record with one message, a session holding it, and
    an event session with no error. *)
Definition one_error (msg : cstring) : sr_error_info_t :=
  {| err_first := {| err_code := 7; message := msg;
                     error_format := None; error_data := None |};
     err_rest := [] |}.

Definition failed_session (msg : cstring) : sr_session_ctx_t :=
  {| sess_err_info := Some (one_error msg); sess_ev_err := [] |}.

Definition fresh_session : sr_session_ctx_t :=
  {| sess_err_info := None; sess_ev_err := [] |}.

(** A registry with the single session 7, whose NETCONF session ID is 42. *)
Definition registry7 (sr_id nc_id : Z) : option Z :=
  if (sr_id =? 7)%Z then Some 42%Z else None.

(** The path as the specification words it: the text from the end of the
    marker to two characters before the end of the message. *)
Definition spec_path (msg : cstring) : option cstring :=
  match strstr msg (lit "data location ") with
  | Some off => Some (firstn (length msg - 2 - (off + 14)) (skipn (off + 14) msg))
  | None =>
      match strstr msg (lit "Schema location ") with
      | Some off => Some (firstn (length msg - 2 - (off + 16)) (skipn (off + 16) msg))
      | None => None
      end
  end.

(** The patterns the specification lists for [np_err_sr2nc_edit]. *)
Definition recognized (msg : cstring) : Prop :=
  has_prefix (lit "Unique data leaf(s)") msg \/
  has_prefix (lit "Too many") msg \/
  has_prefix (lit "Too few") msg \/
  has_prefix (lit "Must condition") msg \/
  (has_prefix (lit "Invalid leafref value") msg /\
   contains (lit "no existing target instance") msg) \/
  (has_prefix (lit "Invalid instance-identifier") msg /\
   contains (lit "required instance not found") msg) \/
  has_prefix (lit "Mandatory choice") msg.

(** Messages in the format of the validator. *)
Definition msg_must : cstring :=
  lit "Must condition " ++ dquote :: lit "count(x) > 1" ++ dquote ::
  lit " not satisfied. (Schema location /m:c/l, data location /m:c/l.)".

Definition msg_choice : cstring :=
  lit "Mandatory choice " ++ dquote :: lit "ch" ++ dquote ::
  lit " data do not exist. (Schema location /x/y.)".

Definition msg_leafref : cstring :=
  lit "Invalid leafref value " ++ dquote :: lit "foo" ++ dquote ::
  lit " - no existing target instance " ++ dquote :: lit "/m:t" ++ dquote ::
  lit ". (Schema location /m:c/r, data location /p/q.)".

(** A message that departs from "Invalid instance-identifier" at its last
    character. *)
Definition msg_instid_26 : cstring :=
  lit "Invalid instance-identified " ++ dquote :: lit "/m:t" ++ dquote ::
  lit " value - required instance not found. (Schema location /m:c/i, data location /p/q.)".

(** A message with a single character after the marker. *)
Definition msg_short_location : cstring :=
  lit "Too many elements at data location /".

(** The error types, tags and info element names the translator uses. *)
Definition used_types : list cstring := [lit "protocol"; lit "application"].

Definition used_tags : list cstring :=
  [lit "lock-denied"; lit "in-use"; lit "invalid-value"; lit "missing-element";
   lit "bad-element"; lit "operation-failed"; lit "data-missing"].

Definition used_info_names : list cstring :=
  [lit "session-id"; lit "bad-element"; lit "non-unique"; lit "missing-choice"].

(** Text in which [atoi] finds no number: it is empty or starts with a
    character that is no white space, sign or digit. *)
Definition no_number (s : cstring) : bool :=
  match s with
  | [] => true
  | c :: _ =>
      negb (isspace c || isdigit c || Ascii.eqb c "-"%char || Ascii.eqb c "+"%char)
  end.

(** Text that does not go on with a digit. *)
Definition no_leading_digit (s : cstring) : bool :=
  match s with
  | [] => true
  | c :: _ => negb (isdigit c)
  end.

(** More messages in the format of the validator, and some that break it. *)
Definition msg_unique : cstring :=
  lit "Unique data leaf(s) " ++ dquote :: lit "name" ++ dquote ::
  lit " not satisfied in " ++ dquote :: lit "/m:l[k='a']" ++ dquote ::
  lit " and " ++ dquote :: lit "/m:l[k='b']" ++ dquote ::
  lit ". (Schema location /m:l, data location /m:l[k='b'].)".

Definition msg_too_many : cstring :=
  lit "Too many " ++ dquote :: lit "l" ++ dquote ::
  lit " instances. (Schema location /m:c/l, data location /m:c.)".

Definition msg_too_few : cstring :=
  lit "Too few " ++ dquote :: lit "l" ++ dquote ::
  lit " instances. (Schema location /m:c/l.)".

Definition msg_instid : cstring :=
  lit "Invalid instance-identifier " ++ dquote :: lit "/m:t" ++ dquote ::
  lit " value - required instance not found. (Schema location /m:c/i, data location /p/q.)".

Definition msg_leafref_other : cstring :=
  lit "Invalid leafref value " ++ dquote :: lit "foo" ++ dquote ::
  lit " - unresolvable. (Schema location /m:c/r, data location /p/q.)".

Definition msg_leafref_unquoted : cstring :=
  lit "Invalid leafref value foo - no existing target instance. (data location /p/q.)".

Definition msg_too_many_bare : cstring := lit "Too many elements.".

Definition msg_must_bare : cstring :=
  lit "Must condition not satisfied, data location /m:c/l.)".

Definition msg_choice_bare : cstring := lit "Mandatory choice missing.".

Definition msg_both_locations : cstring :=
  lit "Too many. (Schema location /s/x, data location /d/y.)".

(** * Properties *)

(** ** The string functions on small inputs *)

Example strstr_ex :
  strstr (lit "abc DS-locked by session 7") (lit "DS-locked by session ") = Some 4.
Proof. reflexivity. Qed.

Example atoi_ex : atoi (lit "  -42abc") = (-42)%Z.
Proof. reflexivity. Qed.

Example sprintf_ex : sprintf_u32 1234 = lit "1234".
Proof. reflexivity. Qed.

Example sprintf_ex0 : sprintf_u32 0 = lit "0".
Proof. reflexivity. Qed.

Example strrchr_ex : strrchr (lit "a(b(c") "("%char = Some 3.
Proof. reflexivity. Qed.

Example strndup_wrap_ex : strndup (lit "x") (size_sub (strlen (lit "x")) 2) = lit "x".
Proof. reflexivity. Qed.

(** ** Facts about the string functions *)

Lemma starts_with_spec (p s : cstring) :
  starts_with p s = true <-> has_prefix p s.
Proof.
  revert s; induction p as [|c p IH]; intros s; simpl.
  - split; [intros _; exists s; reflexivity | reflexivity].
  - destruct s as [|d s].
    + split; [discriminate | intros [r H]; discriminate].
    + rewrite andb_true_iff, Ascii.eqb_eq, IH. split.
      * intros [-> [r ->]]. exists r; reflexivity.
      * intros [r H]. injection H as -> ->.
        split; [reflexivity | exists r; reflexivity].
Qed.

Lemma starts_with_false (p s : cstring) :
  starts_with p s = false <-> ~ has_prefix p s.
Proof.
  rewrite <- starts_with_spec. destruct (starts_with p s); intuition congruence.
Qed.

Lemma strstr_first (hay needle : cstring) (off : nat) :
  strstr hay needle = Some off ->
  exists pre post, length pre = off /\ first_occurrence needle pre post hay.
Proof.
  revert off; induction hay as [|c hay IH]; intros off; simpl.
  - destruct (starts_with needle []) eqn:E; [|discriminate].
    intros [= <-]. apply starts_with_spec in E as [r E].
    exists [], r. repeat split; [exact E | simpl; lia].
  - destruct (starts_with needle (c :: hay)) eqn:E.
    + intros [= <-]. apply starts_with_spec in E as [r E].
      exists [], r. repeat split; [exact E | simpl; lia].
    + destruct (strstr hay needle) as [o|] eqn:Eo; [|discriminate].
      simpl. intros [= <-].
      destruct (IH o eq_refl) as (pre & post & Hlen & Heq & Hmin).
      exists (c :: pre), post. repeat split.
      * simpl; congruence.
      * simpl; congruence.
      * intros [|k] Hk; simpl.
        -- apply starts_with_false; exact E.
        -- apply Hmin. simpl in Hk; lia.
Qed.

Lemma strstr_None (hay needle : cstring) :
  strstr hay needle = None -> ~ contains needle hay.
Proof.
  induction hay as [|c hay IH]; simpl.
  - destruct (starts_with needle []) eqn:E; [discriminate|].
    intros _ (pre & post & H). apply starts_with_false in E. apply E.
    destruct pre; [exists post; exact H | discriminate].
  - destruct (starts_with needle (c :: hay)) eqn:E; [discriminate|].
    destruct (strstr hay needle) eqn:Eo; [discriminate|].
    intros _ (pre & post & H). apply starts_with_false in E.
    destruct pre as [|d pre].
    + apply E. exists post; exact H.
    + apply IH; [reflexivity|]. injection H as _ H. exists pre, post; exact H.
Qed.

Lemma strstr_contains (hay needle : cstring) :
  contains needle hay -> exists off, strstr hay needle = Some off.
Proof.
  intros H. destruct (strstr hay needle) as [off|] eqn:E.
  - exists off; reflexivity.
  - exfalso. exact (strstr_None _ _ E H).
Qed.

Lemma is_some_strstr (hay needle : cstring) :
  is_some (strstr hay needle) = true <-> contains needle hay.
Proof.
  split.
  - destruct (strstr hay needle) as [off|] eqn:E; [|discriminate].
    intros _. destruct (strstr_first _ _ _ E) as (pre & post & _ & H & _).
    exists pre, post; exact H.
  - intros H. destruct (strstr_contains _ _ H) as [off ->]. reflexivity.
Qed.

Lemma skipn_length_app {A} (pre rest : list A) :
  skipn (length pre) (pre ++ rest) = rest.
Proof. induction pre; simpl; auto. Qed.

Lemma firstn_length_app {A} (pre rest : list A) :
  firstn (length pre) (pre ++ rest) = pre.
Proof. induction pre; simpl; congruence. Qed.

Lemma strchr_None (s : cstring) (c : ascii) :
  strchr s c = None <-> ~ In c s.
Proof.
  induction s as [|x s IH]; simpl.
  - intuition.
  - destruct (Ascii.eqb_spec x c) as [->|Hne].
    + split; [discriminate | intros H; exfalso; apply H; left; reflexivity].
    + destruct (strchr s c); simpl.
      * split; [discriminate|]. intros H. exfalso.
        assert (Hn : ~ In c s) by (intros Hi; apply H; right; exact Hi).
        apply IH in Hn. discriminate.
      * split; [|reflexivity]. intros _ [H|H]; [congruence|].
        revert H. apply IH. reflexivity.
Qed.

Lemma strchr_In (s : cstring) (c : ascii) : strchr s c <> None -> In c s.
Proof.
  intros H. destruct (in_dec ascii_dec c s) as [Hin|Hout]; [exact Hin|].
  apply strchr_None in Hout. contradiction.
Qed.

Lemma strchr_app (v rest : cstring) (c : ascii) :
  ~ In c v -> strchr (v ++ c :: rest) c = Some (length v).
Proof.
  induction v as [|x v IH]; simpl; intros H.
  - rewrite Ascii.eqb_refl. reflexivity.
  - destruct (Ascii.eqb_spec x c) as [->|Hne]; [exfalso; apply H; left; reflexivity|].
    rewrite IH; [reflexivity|]. intros Hi; apply H; right; exact Hi.
Qed.

Lemma strrchr_None (s : cstring) (c : ascii) :
  strrchr s c = None <-> ~ In c s.
Proof.
  induction s as [|x s IH]; simpl.
  - intuition.
  - destruct (strrchr s c) as [i|].
    + split; [discriminate|]. intros H. exfalso.
      assert (Hn : ~ In c s) by (intros Hi; apply H; right; exact Hi).
      apply IH in Hn. discriminate.
    + destruct (Ascii.eqb_spec x c) as [->|Hne].
      * split; [discriminate | intros H; exfalso; apply H; left; reflexivity].
      * split; [|reflexivity]. intros _ [H|H]; [congruence|].
        revert H. apply IH. reflexivity.
Qed.

Lemma strrchr_app (pre post : cstring) (c : ascii) :
  ~ In c post -> strrchr (pre ++ c :: post) c = Some (length pre).
Proof.
  intros H. induction pre as [|x pre IH]; simpl.
  - apply strrchr_None in H. rewrite H, Ascii.eqb_refl. reflexivity.
  - rewrite IH. reflexivity.
Qed.

Lemma strrchr_nth (s : cstring) (c : ascii) (i : nat) :
  strrchr s c = Some i -> nth_error s i = Some c.
Proof.
  revert i; induction s as [|x s IH]; intros i; simpl; [discriminate|].
  destruct (strrchr s c) as [j|].
  - intros [= <-]. simpl. apply IH. reflexivity.
  - destruct (Ascii.eqb_spec x c) as [->|Hne]; [|discriminate].
    intros [= <-]. reflexivity.
Qed.

Lemma nat_of_ascii_zero (c : ascii) : nat_of_ascii c = 0 -> c = zero.
Proof.
  intros H. rewrite <- (ascii_nat_embedding c), H. reflexivity.
Qed.

Lemma nat_of_ascii_inj (c d : ascii) : nat_of_ascii c = nat_of_ascii d -> c = d.
Proof.
  intros H. rewrite <- (ascii_nat_embedding c), <- (ascii_nat_embedding d), H.
  reflexivity.
Qed.

(** [!strncmp(s, p, n)] holds exactly when [s] starts with the first [n]
    characters of the literal [p]. *)
Lemma strncmp_eq_spec (n : nat) (p s : cstring) :
  n <= length p -> no_nul p = true ->
  (strncmp_eq s p n = true <-> has_prefix (firstn n p) s).
Proof.
  unfold strncmp_eq. revert p s; induction n as [|n IH]; intros p s Hn Hp.
  - simpl. split; [intros _; exists s; reflexivity | reflexivity].
  - destruct p as [|c2 p]; [simpl in Hn; lia|].
    simpl in Hp. apply andb_true_iff in Hp as [Hc Hp].
    apply negb_true_iff in Hc. apply Ascii.eqb_neq in Hc.
    destruct s as [|c1 s]; simpl.
    + split; [|intros [r H]; discriminate].
      intros H. apply Z.eqb_eq in H. exfalso. apply Hc.
      apply nat_of_ascii_zero. lia.
    + destruct (Ascii.eqb_spec c1 c2) as [->|Hne].
      * rewrite IH by (simpl in Hn; auto; lia). split.
        -- intros [r ->]. exists r; reflexivity.
        -- intros [r H]. injection H as ->. exists r; reflexivity.
      * split.
        -- intros H. apply Z.eqb_eq in H. exfalso. apply Hne.
           apply nat_of_ascii_inj. lia.
        -- intros [r H]. injection H as -> _. congruence.
Qed.

Lemma strndup_short (s : cstring) (n : nat) :
  n <= length s -> strndup s (Z.of_nat n) = firstn n s.
Proof.
  intros H. unfold strndup, strlen.
  destruct (Z.leb_spec (Z.of_nat (length s)) (Z.of_nat n)) as [Hle|Hgt].
  - assert (n = length s) as -> by lia. symmetry. apply firstn_all.
  - rewrite Nat2Z.id. reflexivity.
Qed.

(** Two characters are cut from the end of a string that has them. *)
Lemma strndup_cut2 (s : cstring) :
  2 <= length s ->
  strndup s (size_sub (strlen s) 2) = firstn (length s - 2) s.
Proof.
  intros H. unfold size_sub, strlen.
  destruct (Z.leb_spec 2 (Z.of_nat (length s))) as [_|Hlt]; [|lia].
  replace (Z.of_nat (length s) - 2)%Z with (Z.of_nat (length s - 2)) by lia.
  apply strndup_short. lia.
Qed.

(** On a shorter string the subtraction wraps and nothing is cut. *)
Lemma strndup_cut2_wrap (s : cstring) :
  length s < 2 -> strndup s (size_sub (strlen s) 2) = s.
Proof.
  intros H. unfold strndup, size_sub, strlen, SIZE_WIDTH.
  destruct (Z.leb_spec 2 (Z.of_nat (length s))) as [Hle|_]; [lia|].
  destruct (Z.leb_spec (Z.of_nat (length s))
              (Z.of_nat (length s) - 2 + 2 ^ 64)) as [_|Hgt]; [reflexivity|].
  exfalso. assert (0 < 2 ^ 64)%Z by reflexivity. lia.
Qed.

Lemma int_of_long_small (z : Z) :
  (0 <= z <= INT_MAX)%Z -> int_of_long z = z.
Proof.
  unfold int_of_long, INT_MAX. intros H.
  rewrite Z.mod_small by lia. lia.
Qed.

(** The digits [sprintf] prints read back as the value printed. *)
Lemma digits_value_of_uint_acc (d : Decimal.uint) (acc : positive) :
  digits_value (lit (NilEmpty.string_of_uint d)) (Zpos acc) =
  Zpos (Pos.of_uint_acc d acc).
Proof.
  revert acc. unfold lit.
  induction d; intros acc;
    cbn [NilEmpty.string_of_uint list_ascii_of_string digits_value Pos.of_uint_acc];
    [reflexivity | ..];
    (change (isdigit _) with true; cbv iota; rewrite <- IHd; f_equal;
     unfold digit_val; simpl nat_of_ascii; simpl Nat.sub; lia).
Qed.

Lemma digits_value_of_uint (d : Decimal.uint) :
  digits_value (lit (NilEmpty.string_of_uint d)) 0 = Z.of_N (Pos.of_uint d).
Proof.
  unfold lit.
  induction d;
    cbn [NilEmpty.string_of_uint list_ascii_of_string digits_value Pos.of_uint];
    [reflexivity | exact IHd | ..];
    (change (isdigit _) with true; cbv iota;
     apply (digits_value_of_uint_acc d)).
Qed.

Lemma sprintf_u32_reads_back (v : Z) :
  digits_value (sprintf_u32 v) 0 = (v mod 2 ^ 32)%Z.
Proof.
  unfold sprintf_u32.
  assert (H : (0 <= v mod 2 ^ 32)%Z) by (apply Z.mod_pos_bound; reflexivity).
  rewrite <- (Z2N.id _ H) at 2.
  generalize (Z.to_N (v mod 2 ^ 32)). intros n.
  rewrite <- (DecimalN.Unsigned.of_to n) at 2.
  unfold N.of_uint.
  destruct (N.to_uint n) as [|d|d|d|d|d|d|d|d|d|d];
    [reflexivity | ..]; exact (digits_value_of_uint _).
Qed.

Lemma skipn_past {A} (a b c : list A) (n : nat) :
  n = length b -> skipn (length a + n) (a ++ b ++ c) = c.
Proof.
  intros ->. rewrite <- length_app, app_assoc. apply skipn_length_app.
Qed.

(** ** The lock translators *)

Section LockFacts.

Variable nc_session : Type.
Variable nc_session_get_id : nc_session -> Z.
Variable np_get_nc_sess_by_id : Z -> Z -> option nc_session.

Lemma skipn_lock_marker (pre post : cstring) :
  skipn (length pre + Z.to_nat (strlen lock_marker)) (pre ++ lock_marker ++ post) = post.
Proof.
  apply skipn_past. unfold strlen. apply Nat2Z.id.
Qed.

(** C1. When the first message contains "DS-locked by session ",
    [np_err_sr2nc_lock_denied] sets exactly one error on the event session:
    type protocol, tag lock-denied, no application tag, no path, the fixed
    message, and the single info element session-id, whose value is the
    decimal rendering of the NETCONF ID of the session found for the integer
    read after the first marker, or of 0 when the lookup fails.  When the
    message lacks the marker the event session is left as it was. *)
Theorem lock_denied_translation (err_info : sr_error_info_t) (ev : sr_session_ctx_t) :
  (contains lock_marker (message (err_first err_info)) ->
   exists pre post,
     first_occurrence lock_marker pre post (message (err_first err_info)) /\
     np_err_sr2nc_lock_denied nc_session nc_session_get_id np_get_nc_sess_by_id
       err_info ev =
     inr (tt, push_event (SetNetconfError
       {| error_type := lit "protocol";
          error_tag := lit "lock-denied";
          error_app_tag := None;
          error_path := None;
          error_message := Some lock_denied_text;
          error_info :=
            [(lit "session-id",
              sprintf_u32 (match np_get_nc_sess_by_id (atoi post) 0 with
                           | Some s => nc_session_get_id s
                           | None => 0%Z
                           end))] |}) ev)) /\
  (~ contains lock_marker (message (err_first err_info)) ->
   np_err_sr2nc_lock_denied nc_session nc_session_get_id np_get_nc_sess_by_id
     err_info ev = inr (tt, ev)).
Proof.
  unfold np_err_sr2nc_lock_denied. fold lock_marker lock_denied_text.
  destruct (strstr (message (err_first err_info)) lock_marker) as [off|] eqn:E.
  - split.
    + intros _. destruct (strstr_first _ _ _ E) as (pre & post & Hlen & Hfirst).
      exists pre, post. split; [exact Hfirst|].
      destruct Hfirst as [Hmsg _]. subst off. rewrite Hmsg.
      cbv zeta. rewrite skipn_lock_marker. reflexivity.
    + intros H. exfalso. apply H.
      destruct (strstr_first _ _ _ E) as (pre & post & _ & Hmsg & _).
      exists pre, post; exact Hmsg.
  - split; [|reflexivity].
    intros H. exfalso. exact (strstr_None _ _ E H).
Qed.

(** C7. [np_err_sr2nc_in_use] sets an error exactly when
    [np_err_sr2nc_lock_denied] does, namely when the first message contains
    the marker; the two errors agree in type, application tag, path and info
    elements (the same session-id), and differ in the tag, in-use instead of
    lock-denied, and in the fixed message text.  Without the marker both
    leave the event session as it was. *)
Theorem in_use_mirrors_lock_denied (err_info : sr_error_info_t) (ev : sr_session_ctx_t) :
  (contains lock_marker (message (err_first err_info)) /\
   exists e,
     np_err_sr2nc_lock_denied nc_session nc_session_get_id np_get_nc_sess_by_id
       err_info ev = inr (tt, push_event (SetNetconfError e) ev) /\
     error_tag e = lit "lock-denied" /\
     error_message e = Some lock_denied_text /\
     np_err_sr2nc_in_use nc_session nc_session_get_id np_get_nc_sess_by_id
       err_info ev =
     inr (tt, push_event (SetNetconfError
       {| error_type := error_type e;
          error_tag := lit "in-use";
          error_app_tag := error_app_tag e;
          error_path := error_path e;
          error_message := Some in_use_text;
          error_info := error_info e |}) ev)) \/
  (~ contains lock_marker (message (err_first err_info)) /\
   np_err_sr2nc_lock_denied nc_session nc_session_get_id np_get_nc_sess_by_id
     err_info ev = inr (tt, ev) /\
   np_err_sr2nc_in_use nc_session nc_session_get_id np_get_nc_sess_by_id
     err_info ev = inr (tt, ev)).
Proof.
  unfold np_err_sr2nc_lock_denied, np_err_sr2nc_in_use.
  fold lock_marker lock_denied_text in_use_text.
  destruct (strstr (message (err_first err_info)) lock_marker) as [off|] eqn:E.
  - left. split.
    + apply is_some_strstr. rewrite E. reflexivity.
    + eexists. split; [reflexivity|]. simpl. auto.
  - right. split; [exact (strstr_None _ _ E) | split; reflexivity].
Qed.

End LockFacts.

Lemma lock_denied_translation_witness :
  exists pre post,
    first_occurrence lock_marker pre post (lit "abc DS-locked by session 7 now") /\
    np_err_sr2nc_lock_denied Z (fun id => id) registry7
      (one_error (lit "abc DS-locked by session 7 now")) fresh_session =
    inr (tt, push_event (SetNetconfError
      {| error_type := lit "protocol";
         error_tag := lit "lock-denied";
         error_app_tag := None;
         error_path := None;
         error_message := Some lock_denied_text;
         error_info :=
           [(lit "session-id",
             sprintf_u32 (match registry7 (atoi post) 0 with
                          | Some s => s
                          | None => 0%Z
                          end))] |}) fresh_session).
Proof.
  apply (proj1 (lock_denied_translation Z (fun id => id) registry7
                  (one_error (lit "abc DS-locked by session 7 now")) fresh_session)).
  exists (lit "abc "), (lit "7 now"). reflexivity.
Defined.

Example lock_denied_session_7 :
  np_err_sr2nc_lock_denied Z (fun id => id) registry7
    (one_error (lit "abc DS-locked by session 7 now")) fresh_session =
  inr (tt, push_event (SetNetconfError
    {| error_type := lit "protocol"; error_tag := lit "lock-denied";
       error_app_tag := None; error_path := None;
       error_message := Some lock_denied_text;
       error_info := [(lit "session-id", lit "42")] |}) fresh_session).
Proof. reflexivity. Qed.

Example lock_denied_unknown_session :
  np_err_sr2nc_lock_denied Z (fun id => id) registry7
    (one_error (lit "DS-locked by session 8")) fresh_session =
  inr (tt, push_event (SetNetconfError
    {| error_type := lit "protocol"; error_tag := lit "lock-denied";
       error_app_tag := None; error_path := None;
       error_message := Some lock_denied_text;
       error_info := [(lit "session-id", lit "0")] |}) fresh_session).
Proof. reflexivity. Qed.

(** ** Translation of validation errors *)

Lemma firstn_removelast {A} (l rest : list A) :
  l <> [] -> firstn (length l - 1) (l ++ rest) = removelast l.
Proof.
  intros Hl. rewrite firstn_app.
  replace (length l - 1 - length l) with 0 by lia.
  simpl. rewrite app_nil_r.
  rewrite removelast_firstn_len. f_equal. lia.
Qed.

(** The tests of the branches on a message that is known to start with the
    text of one branch. *)
Ltac decide_prefix H :=
  rewrite H; reflexivity.

(** C3 as amended. For a message that starts with "Must condition", has a
    '(' (the last one after the text [pre]) and a path, [np_err_sr2nc_edit]
    sets one error whose message is [pre] without its last character, whose
    tag is operation-failed, whose application tag is must-violation and
    whose path is the extracted path. *)
Theorem must_condition_translation
    (err_sess ev : sr_session_ctx_t) (err_info : sr_error_info_t)
    (rest pre post path : cstring) :
  sr_session_get_error err_sess = Some err_info ->
  message (err_first err_info) = lit "Must condition" ++ rest ->
  message (err_first err_info) = pre ++ "("%char :: post ->
  ~ In "("%char post ->
  edit_get_path (message (err_first err_info)) = Some path ->
  np_err_sr2nc_edit err_sess ev =
  inr (tt, push_event (SetNetconfError
    {| error_type := lit "protocol";
       error_tag := lit "operation-failed";
       error_app_tag := Some (lit "must-violation");
       error_path := Some path;
       error_message := Some (removelast pre);
       error_info := [] |}) ev).
Proof.
  intros Hinfo Hstart Hparen Hlast Hpath.
  unfold np_err_sr2nc_edit, bind. rewrite Hinfo. cbn [assert_nonnull ret].
  set (msg := message (err_first err_info)) in *.
  assert (T1 : strncmp_eq msg (lit "Unique data leaf(s)") 19 = false)
    by decide_prefix Hstart.
  assert (T2 : strncmp_eq msg (lit "Too many") 8 = false) by decide_prefix Hstart.
  assert (T3 : strncmp_eq msg (lit "Too few") 7 = false) by decide_prefix Hstart.
  assert (T4 : strncmp_eq msg (lit "Must condition") 14 = true)
    by decide_prefix Hstart.
  assert (R : strrchr msg "("%char = Some (length pre))
    by (rewrite Hparen; apply strrchr_app; exact Hlast).
  rewrite T1, T2, T3, T4, R, Hpath. cbn [use_ptr ret].
  destruct pre as [|a pre'].
  { rewrite Hstart in Hparen. discriminate Hparen. }
  cbn [length ptr_pred ret assert_nonnull].
  rewrite strndup_short by (rewrite Hparen, length_app; simpl; lia).
  unfold sr_session_set_netconf_error. rewrite Hparen.
  rewrite <- (firstn_removelast (a :: pre') ("("%char :: post)) by discriminate.
  replace (length (a :: pre') - 1) with (length pre') by (simpl; lia).
  reflexivity.
Qed.

Lemma must_condition_translation_witness :
  np_err_sr2nc_edit (failed_session msg_must) fresh_session =
  inr (tt, push_event (SetNetconfError
    {| error_type := lit "protocol";
       error_tag := lit "operation-failed";
       error_app_tag := Some (lit "must-violation");
       error_path := Some (lit "/m:c/l");
       error_message :=
         Some (removelast (lit "Must condition " ++ dquote :: lit "count(x) > 1" ++
                     dquote :: lit " not satisfied. "));
       error_info := [] |}) fresh_session).
Proof.
  apply (must_condition_translation (failed_session msg_must) fresh_session
           (one_error msg_must)
           (lit " " ++ dquote :: lit "count(x) > 1" ++ dquote ::
            lit " not satisfied. (Schema location /m:c/l, data location /m:c/l.)")
           (lit "Must condition " ++ dquote :: lit "count(x) > 1" ++
            dquote :: lit " not satisfied. ")
           (lit "Schema location /m:c/l, data location /m:c/l.)")).
  - reflexivity.
  - reflexivity.
  - reflexivity.
  - vm_compute. intuition discriminate.
  - reflexivity.
Defined.

(** C3 as stated fails: the tag of the error set for a "Must condition"
    message is operation-failed; must-violation is its application tag. *)
Lemma must_condition_tag_counterexample :
  exists e,
    np_err_sr2nc_edit (failed_session msg_must) fresh_session =
    inr (tt, push_event (SetNetconfError e) fresh_session) /\
    error_tag e = lit "operation-failed" /\
    error_tag e <> lit "must-violation".
Proof.
  eexists. split; [vm_compute; reflexivity|].
  split; [reflexivity | discriminate].
Qed.

(** C4. For a message that starts with "Mandatory choice" and whose path
    [pre ++ "/" ++ post] has its last '/' after [pre], [np_err_sr2nc_edit]
    sets one error with tag data-missing, application tag mandatory-choice,
    the message "Missing mandatory choice.", the info element missing-choice
    holding the path, and as error path the parent [pre], or the single
    character "/" when the last '/' is the first character of the path. *)
Theorem mandatory_choice_translation
    (err_sess ev : sr_session_ctx_t) (err_info : sr_error_info_t)
    (rest pre post : cstring) :
  sr_session_get_error err_sess = Some err_info ->
  message (err_first err_info) = lit "Mandatory choice" ++ rest ->
  edit_get_path (message (err_first err_info)) = Some (pre ++ "/"%char :: post) ->
  ~ In "/"%char post ->
  np_err_sr2nc_edit err_sess ev =
  inr (tt, push_event (SetNetconfError
    {| error_type := lit "protocol";
       error_tag := lit "data-missing";
       error_app_tag := Some (lit "mandatory-choice");
       error_path := Some (match pre with [] => lit "/" | _ :: _ => pre end);
       error_message := Some (lit "Missing mandatory choice.");
       error_info := [(lit "missing-choice", pre ++ "/"%char :: post)] |}) ev).
Proof.
  intros Hinfo Hstart Hpath Hlast.
  unfold np_err_sr2nc_edit, bind. rewrite Hinfo. cbn [assert_nonnull ret].
  set (msg := message (err_first err_info)) in *.
  assert (T1 : strncmp_eq msg (lit "Unique data leaf(s)") 19 = false)
    by decide_prefix Hstart.
  assert (T2 : strncmp_eq msg (lit "Too many") 8 = false) by decide_prefix Hstart.
  assert (T3 : strncmp_eq msg (lit "Too few") 7 = false) by decide_prefix Hstart.
  assert (T4 : strncmp_eq msg (lit "Must condition") 14 = false)
    by decide_prefix Hstart.
  assert (T5 : strncmp_eq msg (lit "Invalid leafref value") 21 = false)
    by decide_prefix Hstart.
  assert (T6 : strncmp_eq msg (lit "Invalid instance-identifier") 26 = false)
    by decide_prefix Hstart.
  assert (T7 : strncmp_eq msg (lit "Mandatory choice") 16 = true)
    by decide_prefix Hstart.
  rewrite T1, T2, T3, T4, T5, T6, T7, Hpath. cbn [andb use_ptr ret].
  rewrite (strrchr_app pre post "/"%char Hlast). cbn [use_ptr ret assert_nonnull].
  unfold sr_session_set_netconf_error. do 5 f_equal.
  destruct pre as [|a pre'].
  { cbn [length Nat.eqb app]. change 1%Z with (Z.of_nat 1).
    rewrite strndup_short by (simpl; lia). reflexivity. }
  cbn [length Nat.eqb].
  rewrite strndup_short by (rewrite length_app; simpl; lia).
  f_equal. apply (firstn_length_app (a :: pre')).
Qed.

Lemma mandatory_choice_translation_witness :
  np_err_sr2nc_edit (failed_session msg_choice) fresh_session =
  inr (tt, push_event (SetNetconfError
    {| error_type := lit "protocol";
       error_tag := lit "data-missing";
       error_app_tag := Some (lit "mandatory-choice");
       error_path := Some (lit "/x");
       error_message := Some (lit "Missing mandatory choice.");
       error_info := [(lit "missing-choice", lit "/x" ++ "/"%char :: lit "y")] |})
    fresh_session).
Proof.
  apply (mandatory_choice_translation (failed_session msg_choice) fresh_session
           (one_error msg_choice)
           (lit " " ++ dquote :: lit "ch" ++ dquote ::
            lit " data do not exist. (Schema location /x/y.)")
           (lit "/x") (lit "y")).
  - reflexivity.
  - reflexivity.
  - reflexivity.
  - vm_compute. intuition discriminate.
Defined.

(** The message of the specification's example for this branch ends in one
    character after the path, so two characters are cut all the same. *)
Example mandatory_choice_spec_example :
  np_err_sr2nc_edit
    (failed_session (lit "Mandatory choice ch missing. Schema location /x/y."))
    fresh_session =
  inr (tt, push_event (SetNetconfError
    {| error_type := lit "protocol";
       error_tag := lit "data-missing";
       error_app_tag := Some (lit "mandatory-choice");
       error_path := Some (lit "/x");
       error_message := Some (lit "Missing mandatory choice.");
       error_info := [(lit "missing-choice", lit "/x/")] |}) fresh_session).
Proof. reflexivity. Qed.

Lemma asprintf_prec_some (before arg after : cstring) (prec : Z) :
  (Z.of_nat (length before + length arg + length after) <= INT_MAX)%Z ->
  asprintf_prec before prec arg after =
  Some (before ++ (if (prec <? 0)%Z then arg else firstn (Z.to_nat prec) arg) ++ after).
Proof.
  intros H. unfold asprintf_prec, strlen. cbv zeta.
  match goal with
  | |- context [before ++ ?m ++ after] => set (mid := m)
  end.
  assert (Hmid : length mid <= length arg).
  { subst mid. destruct (prec <? 0)%Z; [lia | rewrite length_firstn; lia]. }
  destruct (Z.leb_spec (Z.of_nat (length (before ++ mid ++ after))) INT_MAX)
    as [_|Hgt]; [reflexivity|].
  rewrite !length_app in Hgt. lia.
Qed.

Lemma asprintf_prec_none (before arg after : cstring) (prec : Z) :
  asprintf_prec before prec arg after = None ->
  (INT_MAX < Z.of_nat (length before + length arg + length after))%Z.
Proof.
  intros H.
  destruct (Z.le_gt_cases (Z.of_nat (length before + length arg + length after)) INT_MAX)
    as [Hle|Hgt]; [|lia].
  rewrite (asprintf_prec_some before arg after prec Hle) in H. discriminate H.
Qed.

Lemma asprintf_prec_nonempty (before arg after m : cstring) (prec : Z) :
  before <> [] -> asprintf_prec before prec arg after = Some m -> m <> [].
Proof.
  unfold asprintf_prec. cbv zeta. intros Hb H.
  match type of H with (if ?c then _ else _) = _ => destruct c; [|discriminate H] end.
  injection H as <-. destruct before; [contradiction | discriminate].
Qed.

Lemma quoted_value_message_closed (before after s value rest : cstring) (off : nat)
    (ev : sr_session_ctx_t) :
  skipn off s = value ++ dquote :: rest ->
  ~ In dquote value ->
  (Z.of_nat (length before + length value + length after) <= INT_MAX)%Z ->
  quoted_value_message before s off after ev =
  inr (Some (before ++ value ++ after), ev).
Proof.
  intros Hskip Hq Hlen. unfold quoted_value_message, bind.
  rewrite Hskip, (strchr_app value rest dquote Hq). cbn [use_ptr ret].
  rewrite int_of_long_small by (unfold INT_MAX in *; lia).
  unfold asprintf_prec, strlen. cbv zeta.
  destruct (Z.ltb_spec (Z.of_nat (length value)) 0) as [Hneg|_]; [lia|].
  rewrite Nat2Z.id, firstn_length_app.
  destruct (Z.leb_spec (Z.of_nat (length (before ++ value ++ after))) INT_MAX)
    as [_|Hgt]; [reflexivity|].
  rewrite !length_app in Hgt. lia.
Qed.

(** C5. For a message that starts with "Invalid leafref value", holds at
    offset 22 a double quote, from offset 23 the text [value] and then the
    next double quote, contains "no existing target instance" and has a path,
    [np_err_sr2nc_edit] sets one error with tag data-missing, application tag
    instance-required, the extracted path, and the message "Required leafref
    target with value " followed by the quoted [value] and " missing.".  The
    message, 46 characters longer than [value], has to fit the [int] that
    [asprintf] returns. *)
Theorem leafref_translation
    (err_sess ev : sr_session_ctx_t) (err_info : sr_error_info_t)
    (c : ascii) (value rest path : cstring) :
  sr_session_get_error err_sess = Some err_info ->
  message (err_first err_info) =
    lit "Invalid leafref value" ++ c :: dquote :: value ++ dquote :: rest ->
  ~ In dquote value ->
  (Z.of_nat (length value) + 46 <= INT_MAX)%Z ->
  contains (lit "no existing target instance") (message (err_first err_info)) ->
  edit_get_path (message (err_first err_info)) = Some path ->
  np_err_sr2nc_edit err_sess ev =
  inr (tt, push_event (SetNetconfError
    {| error_type := lit "protocol";
       error_tag := lit "data-missing";
       error_app_tag := Some (lit "instance-required");
       error_path := Some path;
       error_message :=
         Some (lit "Required leafref target with value " ++ dquote :: value ++
         dquote :: lit " missing.");
       error_info := [] |}) ev).
Proof.
  intros Hinfo Hstart Hq Hlen Hsub Hpath.
  unfold np_err_sr2nc_edit, bind. rewrite Hinfo. cbn [assert_nonnull ret].
  set (msg := message (err_first err_info)) in *.
  assert (T1 : strncmp_eq msg (lit "Unique data leaf(s)") 19 = false)
    by decide_prefix Hstart.
  assert (T2 : strncmp_eq msg (lit "Too many") 8 = false) by decide_prefix Hstart.
  assert (T3 : strncmp_eq msg (lit "Too few") 7 = false) by decide_prefix Hstart.
  assert (T4 : strncmp_eq msg (lit "Must condition") 14 = false)
    by decide_prefix Hstart.
  assert (T5 : strncmp_eq msg (lit "Invalid leafref value") 21 = true)
    by decide_prefix Hstart.
  assert (C : forall s, char_at msg 22 s = inr (dquote, s))
    by (intros s; rewrite Hstart; reflexivity).
  assert (K : skipn 23 msg = value ++ dquote :: rest)
    by decide_prefix Hstart.
  apply is_some_strstr in Hsub.
  rewrite T1, T2, T3, T4, T5, Hsub, Hpath. cbn [andb]. rewrite C.
  unfold assert. rewrite Ascii.eqb_refl.
  rewrite (quoted_value_message_closed _ _ _ value rest 23 ev K Hq)
    by (simpl length; lia).
  cbn [assert_nonnull ret]. unfold sr_session_set_netconf_error.
  reflexivity.
Qed.

Lemma leafref_translation_witness :
  np_err_sr2nc_edit (failed_session msg_leafref) fresh_session =
  inr (tt, push_event (SetNetconfError
    {| error_type := lit "protocol";
       error_tag := lit "data-missing";
       error_app_tag := Some (lit "instance-required");
       error_path := Some (lit "/p/q");
       error_message :=
         Some (lit "Required leafref target with value " ++ dquote :: lit "foo" ++
         dquote :: lit " missing.");
       error_info := [] |}) fresh_session).
Proof.
  apply (leafref_translation (failed_session msg_leafref) fresh_session
           (one_error msg_leafref) " "%char (lit "foo")
           (lit " - no existing target instance " ++ dquote :: lit "/m:t" ++
            dquote :: lit ". (Schema location /m:c/r, data location /p/q.)")
           (lit "/p/q")).
  - reflexivity.
  - reflexivity.
  - vm_compute. intuition discriminate.
  - vm_compute. discriminate.
  - exists (lit "Invalid leafref value " ++ dquote :: lit "foo" ++ dquote :: lit " - "),
      (lit " " ++ dquote :: lit "/m:t" ++ dquote ::
       lit ". (Schema location /m:c/r, data location /p/q.)").
    reflexivity.
  - reflexivity.
Defined.

(** The example of the specification for this branch. *)
Example leafref_spec_example :
  np_err_sr2nc_edit
    (failed_session
       (lit "Invalid leafref value " ++ dquote :: lit "foo" ++ dquote ::
        lit " - no existing target instance ... data location /p/q" ++ dquote ::
        lit "."))
    fresh_session =
  inr (tt, push_event (SetNetconfError
    {| error_type := lit "protocol";
       error_tag := lit "data-missing";
       error_app_tag := Some (lit "instance-required");
       error_path := Some (lit "/p/q");
       error_message :=
         Some (lit "Required leafref target with value " ++ dquote :: lit "foo" ++
         dquote :: lit " missing.");
       error_info := [] |}) fresh_session).
Proof. reflexivity. Qed.

(** When the message for a leafref value does not fit an [int], [asprintf]
    fails and the error is set with a NULL message. *)
Lemma leafref_translation_overflow
    (err_sess ev : sr_session_ctx_t) (err_info : sr_error_info_t)
    (c : ascii) (value rest path : cstring) :
  sr_session_get_error err_sess = Some err_info ->
  message (err_first err_info) =
    lit "Invalid leafref value" ++ c :: dquote :: value ++ dquote :: rest ->
  ~ In dquote value ->
  (Z.of_nat (length value) <= INT_MAX < Z.of_nat (length value) + 46)%Z ->
  contains (lit "no existing target instance") (message (err_first err_info)) ->
  edit_get_path (message (err_first err_info)) = Some path ->
  np_err_sr2nc_edit err_sess ev =
  inr (tt, push_event (SetNetconfError
    {| error_type := lit "protocol";
       error_tag := lit "data-missing";
       error_app_tag := Some (lit "instance-required");
       error_path := Some path;
       error_message := None;
       error_info := [] |}) ev).
Proof.
  intros Hinfo Hstart Hq Hlen Hsub Hpath.
  unfold np_err_sr2nc_edit, bind. rewrite Hinfo. cbn [assert_nonnull ret].
  set (msg := message (err_first err_info)) in *.
  assert (T1 : strncmp_eq msg (lit "Unique data leaf(s)") 19 = false)
    by decide_prefix Hstart.
  assert (T2 : strncmp_eq msg (lit "Too many") 8 = false) by decide_prefix Hstart.
  assert (T3 : strncmp_eq msg (lit "Too few") 7 = false) by decide_prefix Hstart.
  assert (T4 : strncmp_eq msg (lit "Must condition") 14 = false)
    by decide_prefix Hstart.
  assert (T5 : strncmp_eq msg (lit "Invalid leafref value") 21 = true)
    by decide_prefix Hstart.
  assert (C : forall s, char_at msg 22 s = inr (dquote, s))
    by (intros s; rewrite Hstart; reflexivity).
  assert (K : skipn 23 msg = value ++ dquote :: rest)
    by decide_prefix Hstart.
  apply is_some_strstr in Hsub.
  rewrite T1, T2, T3, T4, T5, Hsub, Hpath. cbn [andb]. rewrite C.
  unfold assert. rewrite Ascii.eqb_refl.
  unfold quoted_value_message, bind.
  rewrite K, (strchr_app value rest dquote Hq). cbn [use_ptr ret].
  rewrite int_of_long_small by lia.
  unfold asprintf_prec, strlen. cbv zeta.
  destruct (Z.ltb_spec (Z.of_nat (length value)) 0) as [Hneg|_]; [lia|].
  rewrite Nat2Z.id, firstn_length_app.
  match goal with
  | |- context [(Z.of_nat (length ?out) <=? INT_MAX)%Z] =>
      destruct (Z.leb_spec (Z.of_nat (length out)) INT_MAX) as [Hle|_]
  end.
  - exfalso. rewrite !length_app in Hle. simpl length in Hle. clear - Hle Hlen. lia.
  - reflexivity.
Qed.

(** ** The extracted path *)

(** The path of the code is the path of the specification unless exactly
    one character follows the marker. *)
Lemma edit_get_path_spec (msg : cstring) :
  (forall off, strstr msg (lit "data location ") = Some off ->
               length msg <> off + 14 + 1) ->
  (forall off, strstr msg (lit "Schema location ") = Some off ->
               length msg <> off + 16 + 1) ->
  edit_get_path msg = spec_path msg.
Proof.
  intros Hd Hs. unfold edit_get_path, spec_path.
  assert (Hcut : forall p, length msg <> p + 1 ->
            strndup (skipn p msg) (size_sub (strlen (skipn p msg)) 2) =
            firstn (length msg - 2 - p) (skipn p msg)).
  { intros p Hp.
    destruct (Nat.le_gt_cases 2 (length (skipn p msg))) as [Hlong|Hshort].
    - rewrite strndup_cut2 by exact Hlong. rewrite length_skipn.
      f_equal. lia.
    - rewrite strndup_cut2_wrap by exact Hshort.
      rewrite length_skipn in Hshort.
      assert (Hnil : skipn p msg = []).
      { apply length_zero_iff_nil. rewrite length_skipn. lia. }
      rewrite Hnil. destruct (length msg - 2 - p); reflexivity. }
  destruct (strstr msg (lit "data location ")) as [off|].
  - rewrite Hcut by (apply Hd; reflexivity). reflexivity.
  - destruct (strstr msg (lit "Schema location ")) as [off|]; [|reflexivity].
    rewrite Hcut by (apply Hs; reflexivity). reflexivity.
Qed.

Example edit_get_path_unique :
  edit_get_path (lit "Unique data leaf(s) ... data location /a/b/c" ++ dquote :: lit ".")
  = Some (lit "/a/b/c").
Proof. reflexivity. Qed.

(** C6, at a message with one character after the marker: the subtraction
    [strlen(ptr) - 2] wraps, [strndup] copies all that is left, and the path
    is that character, where the text up to two characters before the end of
    the message is empty. *)
Theorem edit_get_path_one_character :
  strstr msg_short_location (lit "data location ") = Some 21 /\
  length msg_short_location = 21 + 14 + 1 /\
  edit_get_path msg_short_location = Some (lit "/") /\
  spec_path msg_short_location = Some [].
Proof. repeat split. Qed.

(** ** The unclassified fallback *)

(** C2, at a message that starts with "Invalid instance-identified": it
    matches none of the patterns of the specification, yet the branch for
    instance identifiers, which compares 26 characters of its 27-character
    text, takes it and builds an error; the record is not copied. *)
Theorem edit_instance_identifier_26 :
  ~ recognized msg_instid_26 /\
  np_err_sr2nc_edit (failed_session msg_instid_26) fresh_session =
  inr (tt, push_event (SetNetconfError
    {| error_type := lit "protocol";
       error_tag := lit "data-missing";
       error_app_tag := Some (lit "instance-required");
       error_path := Some (lit "/p/q");
       error_message :=
         Some (lit "Required instance-identifier " ++ dquote :: lit "/m:t" ++
         dquote :: lit " missing.");
       error_info := [] |}) fresh_session) /\
  np_err_sr2nc_edit (failed_session msg_instid_26) fresh_session <>
  inr (tt, push_event (DupError (one_error msg_instid_26)) fresh_session).
Proof.
  split; [|split; [reflexivity | vm_compute; discriminate]].
  unfold recognized.
  assert (P : forall p, starts_with p msg_instid_26 = false ->
                        ~ has_prefix p msg_instid_26)
    by (intros p; apply starts_with_false).
  intros [H|[H|[H|[H|[[H _]|[[H _]|H]]]]]]; revert H; apply P; reflexivity.
Qed.

(** The test of a branch, read back as a prefix of the message. *)
Ltac prefix_of T :=
  apply strncmp_eq_spec in T; [| simpl; lia | reflexivity].

Lemma strncmp_eq_false (n : nat) (p s : cstring) :
  n <= length p -> no_nul p = true ->
  ~ has_prefix (firstn n p) s -> strncmp_eq s p n = false.
Proof.
  intros Hn Hp H. destruct (strncmp_eq s p n) eqn:E; [|reflexivity].
  exfalso. apply H. apply (strncmp_eq_spec n p s Hn Hp). exact E.
Qed.

(** X2. A message outside the patterns of the specification, and outside
    the 26-character prefix the code compares for instance identifiers, has
    its whole error record copied to the event session. *)
Lemma edit_fallback_copies
    (err_sess ev : sr_session_ctx_t) (err_info : sr_error_info_t) :
  sr_session_get_error err_sess = Some err_info ->
  ~ recognized (message (err_first err_info)) ->
  ~ (has_prefix (lit "Invalid instance-identifie") (message (err_first err_info)) /\
     contains (lit "required instance not found") (message (err_first err_info))) ->
  np_err_sr2nc_edit err_sess ev = inr (tt, push_event (DupError err_info) ev).
Proof.
  intros Hinfo Hrec H26.
  unfold np_err_sr2nc_edit, bind. rewrite Hinfo. cbn [assert_nonnull ret].
  set (msg := message (err_first err_info)) in *.
  unfold recognized in Hrec.
  rewrite (strncmp_eq_false 19 (lit "Unique data leaf(s)") msg)
    by (simpl; tauto || lia).
  rewrite (strncmp_eq_false 8 (lit "Too many") msg) by (simpl; tauto || lia).
  rewrite (strncmp_eq_false 7 (lit "Too few") msg) by (simpl; tauto || lia).
  rewrite (strncmp_eq_false 14 (lit "Must condition") msg) by (simpl; tauto || lia).
  rewrite (strncmp_eq_false 16 (lit "Mandatory choice") msg) by (simpl; tauto || lia).
  destruct (strncmp_eq msg (lit "Invalid leafref value") 21 &&
            is_some (strstr msg (lit "no existing target instance"))) eqn:T5.
  { exfalso. apply andb_true_iff in T5 as [T5 S5].
    prefix_of T5. apply is_some_strstr in S5. simpl in T5. tauto. }
  destruct (strncmp_eq msg (lit "Invalid instance-identifier") 26 &&
            is_some (strstr msg (lit "required instance not found"))) eqn:T6.
  { exfalso. apply andb_true_iff in T6 as [T6 S6].
    prefix_of T6. apply is_some_strstr in S6. apply H26. split; assumption. }
  unfold sr_session_dup_error. unfold sr_session_get_error in Hinfo.
  rewrite Hinfo. reflexivity.
Qed.

Example edit_spec_fallback_example :
  np_err_sr2nc_edit (failed_session (lit "Some other validation failure.")) fresh_session
  = inr (tt, push_event (DupError (one_error (lit "Some other validation failure.")))
               fresh_session).
Proof. reflexivity. Qed.

(** ** Every outcome of [np_err_sr2nc_edit] *)

Lemma strndup_nonempty (s : cstring) (n : Z) :
  s <> [] -> (0 < n)%Z -> strndup s n <> [].
Proof.
  intros Hs Hn. unfold strndup. destruct (strlen s <=? n)%Z; [exact Hs|].
  destruct s as [|c s]; [contradiction|].
  destruct (Z.to_nat n) eqn:E; [lia|]. discriminate.
Qed.

Ltac wellformed :=
  unfold built_message_ok;
  cbn [error_tag error_message error_app_tag error_info map fst];
  split; [|split];
  try match goal with
      | |- _ <> _ => discriminate
      | |- NoDup _ => repeat constructor; simpl; tauto
      end.

(** The message of the two branches that call [asprintf]. *)
Ltac asprintf_message :=
  match goal with
  | |- match ?a with Some _ => _ | None => _ end =>
      let A := fresh "A" in
      destruct a eqn:A;
      [ eapply asprintf_prec_nonempty; [|exact A]; discriminate
      | split; [reflexivity|];
        apply asprintf_prec_none in A; rewrite length_skipn in A;
        simpl length in A; clear - A; unfold strlen; lia ]
  end.

Ltac faulty :=
  left; split; [eexists; reflexivity|].

(** A message cannot start with the texts of two branches. *)
Ltac clash T :=
  let H := fresh "H" in
  let r := fresh "r" in
  let r' := fresh "r" in
  let E := fresh "E" in
  intros H; exfalso; destruct T as [r E];
  destruct H as [r' H]; rewrite E in H; cbn in H; discriminate H.

(** A message that failed the test of a branch does not start with its text. *)
Ltac unmatched T :=
  let H := fresh "H" in
  intros H; exfalso;
  match type of T with
  | strncmp_eq ?s ?p ?n = false =>
      rewrite (proj2 (strncmp_eq_spec n p s ltac:(simpl; lia) eq_refl) H) in T;
      discriminate T
  end.

Ltac unmatched2 T :=
  let H := fresh "H" in
  let C := fresh "C" in
  intros H C; exfalso;
  apply is_some_strstr in C;
  match type of T with
  | strncmp_eq ?s ?p ?n && _ = false =>
      rewrite (proj2 (strncmp_eq_spec n p s ltac:(simpl; lia) eq_refl) H), C in T;
      discriminate T
  end.

(** A call of [np_err_sr2nc_edit] on a session with an error record ends in
    one of three ways: a fault, when the message breaks a precondition of
    its branch; or, when it meets them, one error set on the event session,
    with a tag, distinct info names and a message that is not empty (or the
    NULL of a failed [asprintf]), or the copy of the error record. *)
Lemma edit_outcome (err_sess ev : sr_session_ctx_t) (err_info : sr_error_info_t) :
  sr_session_get_error err_sess = Some err_info ->
  ((exists f, np_err_sr2nc_edit err_sess ev = inl f) /\
   ~ edit_preconditions (message (err_first err_info))) \/
  (edit_preconditions (message (err_first err_info)) /\
   ((exists e, np_err_sr2nc_edit err_sess ev =
               inr (tt, push_event (SetNetconfError e) ev) /\
               error_tag e <> [] /\
               NoDup (map fst (error_info e)) /\
               built_message_ok (message (err_first err_info)) e) \/
    np_err_sr2nc_edit err_sess ev = inr (tt, push_event (DupError err_info) ev))).
Proof.
  intros Hinfo.
  unfold np_err_sr2nc_edit, bind. rewrite Hinfo. cbn [assert_nonnull ret].
  unfold edit_preconditions.
  set (msg := message (err_first err_info)) in *.
  destruct (strncmp_eq msg (lit "Unique data leaf(s)") 19) eqn:T1.
  { prefix_of T1.
    destruct (edit_get_path msg) as [p|]; cbn [assert_nonnull ret].
    - right. split; [|left; eexists; split; [reflexivity | wellformed]].
      split; [intros _; discriminate|].
      split; [clash T1|]. split; [clash T1|]. split; clash T1.
    - faulty. intros (P & _). apply P; [left; exact T1 | reflexivity]. }
  destruct (strncmp_eq msg (lit "Too many") 8) eqn:T2.
  { prefix_of T2.
    destruct (edit_get_path msg) as [p|]; cbn [assert_nonnull ret].
    - right. split; [|left; eexists; split; [reflexivity | wellformed]].
      split; [intros _; discriminate|].
      split; [clash T2|]. split; [clash T2|]. split; clash T2.
    - faulty. intros (P & _). apply P; [right; left; exact T2 | reflexivity]. }
  destruct (strncmp_eq msg (lit "Too few") 7) eqn:T3.
  { prefix_of T3.
    destruct (edit_get_path msg) as [p|]; cbn [assert_nonnull ret].
    - right. split; [|left; eexists; split; [reflexivity | wellformed]].
      split; [intros _; discriminate|].
      split; [clash T3|]. split; [clash T3|]. split; clash T3.
    - faulty. intros (P & _). apply P; [right; right; exact T3 | reflexivity]. }
  destruct (strncmp_eq msg (lit "Must condition") 14) eqn:T4.
  { prefix_of T4.
    destruct (strrchr msg "("%char) as [i|] eqn:R; cbn [use_ptr ret].
    - apply strrchr_nth in R. pose proof T4 as [r Hr].
      destruct i as [|[|i]];
        [rewrite Hr in R; discriminate R | rewrite Hr in R; discriminate R |].
      cbn [ptr_pred ret].
      destruct (edit_get_path msg) as [p|]; cbn [assert_nonnull ret].
      + right. split.
        * split; [intros [H|[H|H]]; revert H; clash T4|].
          split; [intros _; split; [exact (nth_error_In _ _ R) | discriminate]|].
          split; [clash T4|]. split; clash T4.
        * left; eexists; split; [reflexivity | wellformed].
          apply strndup_nonempty; [rewrite Hr; discriminate | lia].
      + faulty. intros (_ & P & _).
        destruct P as [_ P]; [exact T4 | apply P; reflexivity].
    - faulty. intros (_ & P & _). apply strrchr_None in R.
      destruct P as [P _]; [exact T4 | exact (R P)]. }
  destruct (strncmp_eq msg (lit "Invalid leafref value") 21 &&
            is_some (strstr msg (lit "no existing target instance"))) eqn:T5.
  { apply andb_true_iff in T5 as [T5 S5]. prefix_of T5. apply is_some_strstr in S5.
    unfold char_at, quoted_value_message, bind.
    destruct (nth_error msg 22) as [c|] eqn:N.
    - cbn [ret]. unfold assert. destruct (Ascii.eqb_spec c dquote) as [->|Hc].
      + destruct (strchr (skipn 23 msg) dquote) as [j|] eqn:Q; cbn [use_ptr ret].
        * destruct (edit_get_path msg) as [p|]; cbn [assert_nonnull ret].
          -- right. split; [|left; eexists; split; [reflexivity | wellformed]];
               [|asprintf_message].
             split; [intros [H|[H|H]]; revert H; clash T5|].
             split; [clash T5|].
             split; [|split; clash T5].
             intros _ _. split; [reflexivity|].
             split; [apply strchr_In; rewrite Q; discriminate | discriminate].
          -- faulty. intros (_ & _ & P & _).
             destruct (P T5 S5) as (_ & _ & P'). apply P'; reflexivity.
        * faulty. intros (_ & _ & P & _).
          destruct (P T5 S5) as (_ & P' & _). apply strchr_None in Q. exact (Q P').
      + faulty. intros (_ & _ & P & _).
        destruct (P T5 S5) as (P' & _). congruence.
    - assert (Hpre : ~ (nth_error msg 22 = Some dquote)) by congruence.
      destruct (Nat.eqb 22 (length msg)); cbn [ret].
      + faulty. intros (_ & _ & P & _). destruct (P T5 S5) as (P' & _). congruence.
      + faulty. intros (_ & _ & P & _). destruct (P T5 S5) as (P' & _). congruence. }
  destruct (strncmp_eq msg (lit "Invalid instance-identifier") 26 &&
            is_some (strstr msg (lit "required instance not found"))) eqn:T6.
  { apply andb_true_iff in T6 as [T6 S6]. prefix_of T6. apply is_some_strstr in S6.
    unfold char_at, quoted_value_message, bind.
    destruct (nth_error msg 28) as [c|] eqn:N.
    - cbn [ret]. unfold assert. destruct (Ascii.eqb_spec c dquote) as [->|Hc].
      + destruct (strchr (skipn 29 msg) dquote) as [j|] eqn:Q; cbn [use_ptr ret].
        * destruct (edit_get_path msg) as [p|]; cbn [assert_nonnull ret].
          -- right. split; [|left; eexists; split; [reflexivity | wellformed]];
               [|asprintf_message].
             split; [intros [H|[H|H]]; revert H; clash T6|].
             split; [clash T6|]. split; [clash T6|].
             split; [|clash T6].
             intros _ _. split; [reflexivity|].
             split; [apply strchr_In; rewrite Q; discriminate | discriminate].
          -- faulty. intros (_ & _ & _ & P & _).
             destruct (P T6 S6) as (_ & _ & P'). apply P'; reflexivity.
        * faulty. intros (_ & _ & _ & P & _).
          destruct (P T6 S6) as (_ & P' & _). apply strchr_None in Q. exact (Q P').
      + faulty. intros (_ & _ & _ & P & _).
        destruct (P T6 S6) as (P' & _). congruence.
    - assert (Hpre : ~ (nth_error msg 28 = Some dquote)) by congruence.
      destruct (Nat.eqb 28 (length msg)); cbn [ret].
      + faulty. intros (_ & _ & _ & P & _). destruct (P T6 S6) as (P' & _). congruence.
      + faulty. intros (_ & _ & _ & P & _). destruct (P T6 S6) as (P' & _). congruence. }
  destruct (strncmp_eq msg (lit "Mandatory choice") 16) eqn:T7.
  { prefix_of T7.
    destruct (edit_get_path msg) as [p|]; cbn [use_ptr ret].
    - destruct (strrchr p "/"%char) as [i|] eqn:R; cbn [use_ptr ret assert_nonnull].
      + right. split; [|left; eexists; split; [reflexivity | wellformed]].
        split; [intros [H|[H|H]]; revert H; clash T7|].
        split; [clash T7|]. split; [clash T7|]. split; [clash T7|].
        intros _. exists p. split; [reflexivity|].
        exact (nth_error_In _ _ (strrchr_nth _ _ _ R)).
      + faulty. intros (_ & _ & _ & _ & P).
        destruct (P T7) as (p' & [= <-] & P'). apply strrchr_None in R. exact (R P').
    - faulty. intros (_ & _ & _ & _ & P).
      destruct (P T7) as (p' & Hp & _). discriminate Hp. }
  right. split.
  - split; [intros [H|[H|H]]; revert H; [unmatched T1 | unmatched T2 | unmatched T3]|].
    split; [unmatched T4|]. split; [unmatched2 T5|]. split; [unmatched2 T6|].
    unmatched T7.
  - right. unfold sr_session_dup_error.
    unfold sr_session_get_error in Hinfo. rewrite Hinfo. reflexivity.
Qed.

(** X3. The call returns exactly when the message meets the preconditions. *)
Lemma edit_returns_iff (err_sess ev : sr_session_ctx_t) (err_info : sr_error_info_t) :
  sr_session_get_error err_sess = Some err_info ->
  ((exists ev', np_err_sr2nc_edit err_sess ev = inr (tt, ev')) <->
   edit_preconditions (message (err_first err_info))).
Proof.
  intros Hinfo.
  destruct (edit_outcome err_sess ev err_info Hinfo)
    as [[[f Hf] Hbad]|[Hpre [(e & He & _)|Hdup]]].
  - split; [|contradiction]. intros [ev' H]. rewrite Hf in H. discriminate H.
  - split; [intros _; exact Hpre | intros _; eexists; exact He].
  - split; [intros _; exact Hpre | intros _; eexists; exact Hdup].
Qed.

Lemma emitted_push (ev : sr_session_ctx_t) (e : sink_event) :
  emitted ev (push_event e ev) [e].
Proof. split; reflexivity. Qed.

(** C10. On a session with an error record whose first message meets the
    preconditions of its branch, [np_err_sr2nc_edit] returns and has added
    exactly one event to the event session: one error it built, or the copy
    of the error record. *)
Theorem edit_emits_exactly_one
    (err_sess ev : sr_session_ctx_t) (err_info : sr_error_info_t) :
  sr_session_get_error err_sess = Some err_info ->
  edit_preconditions (message (err_first err_info)) ->
  exists ev' event,
    np_err_sr2nc_edit err_sess ev = inr (tt, ev') /\
    emitted ev ev' [event] /\
    ((exists e, event = SetNetconfError e) \/ event = DupError err_info).
Proof.
  intros Hinfo Hpre.
  destruct (edit_outcome err_sess ev err_info Hinfo)
    as [[_ Hbad]|[_ [(e & He & _)|Hdup]]].
  - contradiction.
  - exists (push_event (SetNetconfError e) ev), (SetNetconfError e).
    split; [exact He|]. split; [apply emitted_push|]. left; exists e; reflexivity.
  - exists (push_event (DupError err_info) ev), (DupError err_info).
    split; [exact Hdup|]. split; [apply emitted_push|]. right; reflexivity.
Qed.

Lemma edit_emits_exactly_one_witness :
  exists ev' event,
    np_err_sr2nc_edit (failed_session msg_must) fresh_session = inr (tt, ev') /\
    emitted fresh_session ev' [event] /\
    ((exists e, event = SetNetconfError e) \/ event = DupError (one_error msg_must)).
Proof.
  apply (edit_emits_exactly_one (failed_session msg_must) fresh_session
           (one_error msg_must)).
  - reflexivity.
  - assert (P : forall p, starts_with p msg_must = false -> ~ has_prefix p msg_must)
      by (intros p; apply starts_with_false).
    unfold edit_preconditions. split; [|split; [|split; [|split]]].
    + intros _ H. vm_compute in H. discriminate H.
    + intros _. split.
      * apply strchr_In. vm_compute. discriminate.
      * intros H. vm_compute in H. discriminate H.
    + intros H. exfalso. revert H. apply P. reflexivity.
    + intros H. exfalso. revert H. apply P. reflexivity.
    + intros H. exfalso. revert H. apply P. reflexivity.
Defined.

(** ** Independence of the event session *)

Lemma append_events_nil (ev : sr_session_ctx_t) : append_events [] ev = ev.
Proof. destruct ev. unfold append_events. simpl. rewrite app_nil_r. reflexivity. Qed.

Lemma append_events_app (out out' : list sink_event) (ev : sr_session_ctx_t) :
  append_events out' (append_events out ev) = append_events (out ++ out') ev.
Proof. unfold append_events. simpl. rewrite app_assoc. reflexivity. Qed.

Lemma framed_ret {A} (a : A) : framed (ret a).
Proof.
  exists (inr (a, [])). intros ev. rewrite append_events_nil. reflexivity.
Qed.

Lemma framed_fault {A} (f : fault) : framed (fun _ => inl f : fault + (A * sr_session_ctx_t)).
Proof. exists (inl f). reflexivity. Qed.

Lemma framed_bind {A B} (c : M A) (k : A -> M B) :
  framed c -> (forall a, framed (k a)) -> framed (bind c k).
Proof.
  intros [[f|[a out]] Hc] Hk.
  - exists (inl f). intros ev. unfold bind. rewrite Hc. reflexivity.
  - destruct (Hk a) as [[f|[b out']] Hka].
    + exists (inl f). intros ev. unfold bind. rewrite Hc, Hka. reflexivity.
    + exists (inr (b, out ++ out')). intros ev. unfold bind.
      rewrite Hc, Hka, append_events_app. reflexivity.
Qed.

Lemma framed_if {A} (b : bool) (c1 c2 : M A) :
  framed c1 -> framed c2 -> framed (if b then c1 else c2).
Proof. destruct b; auto. Qed.

Lemma framed_undefined {A} : framed (@undefined A).
Proof. apply framed_fault. Qed.

Lemma framed_assert (b : bool) : framed (assert b).
Proof.
  destruct b; [exact (framed_ret tt) | apply framed_fault].
Qed.

Lemma framed_assert_nonnull {A} (p : option A) : framed (assert_nonnull p).
Proof. destruct p; [apply framed_ret | apply framed_fault]. Qed.

Lemma framed_use_ptr {A} (p : option A) : framed (use_ptr p).
Proof. destruct p; [apply framed_ret | apply framed_undefined]. Qed.

Lemma framed_ptr_pred (off : nat) : framed (ptr_pred off).
Proof. destruct off; [apply framed_undefined | apply framed_ret]. Qed.

Lemma framed_char_at (s : cstring) (i : nat) : framed (char_at s i).
Proof.
  unfold char_at. destruct (nth_error s i); [apply framed_ret|].
  apply framed_if; [apply framed_ret | apply framed_undefined].
Qed.

Lemma framed_set_netconf_error (ty tag : cstring) (app_tag path : option cstring)
    (msg : option cstring) (infos : list (cstring * cstring)) :
  framed (sr_session_set_netconf_error ty tag app_tag path msg infos).
Proof.
  exists (inr (tt, [SetNetconfError
    {| error_type := ty; error_tag := tag; error_app_tag := app_tag;
       error_path := path; error_message := msg; error_info := infos |}])).
  reflexivity.
Qed.

Lemma framed_dup_error (src : sr_session_ctx_t) : framed (sr_session_dup_error src).
Proof.
  unfold sr_session_dup_error. destruct (sess_err_info src) as [info|].
  - exists (inr (tt, [DupError info])). reflexivity.
  - exact (framed_ret tt).
Qed.

Lemma framed_quoted_value_message (before s : cstring) (off : nat) (after : cstring) :
  framed (quoted_value_message before s off after).
Proof.
  unfold quoted_value_message. apply framed_bind; [apply framed_use_ptr|].
  intros ptr. apply framed_ret.
Qed.

Create HintDb framed.
#[local] Hint Resolve framed_ret framed_bind framed_if framed_undefined framed_assert
  framed_assert_nonnull framed_use_ptr framed_ptr_pred framed_char_at
  framed_set_netconf_error framed_dup_error framed_quoted_value_message : framed.

Lemma framed_edit (err_sess : sr_session_ctx_t) : framed (np_err_sr2nc_edit err_sess).
Proof.
  unfold np_err_sr2nc_edit. cbv zeta.
  apply framed_bind; [apply framed_assert_nonnull|]. intros err_info.
  repeat (apply framed_if; [auto 10 with framed|]).
  apply framed_dup_error.
Qed.

Section OperationFacts.

Variable nc_session : Type.
Variable nc_session_get_id : nc_session -> Z.
Variable np_get_nc_sess_by_id : Z -> Z -> option nc_session.

Local Abbreviation run :=
  (run_operation nc_session nc_session_get_id np_get_nc_sess_by_id).

Lemma framed_run_operation (op : operation) : framed (run op).
Proof.
  destruct op; simpl.
  - unfold np_err_sr2nc_lock_denied.
    destruct (strstr _ _); auto with framed.
  - unfold np_err_sr2nc_in_use.
    destruct (strstr _ _); auto with framed.
  - apply framed_set_netconf_error.
  - apply framed_set_netconf_error.
  - apply framed_set_netconf_error.
  - unfold np_err_invalid_value. destruct bad_elem_name; auto with framed.
  - apply framed_set_netconf_error.
  - apply framed_edit.
Qed.

(** C9. When an operation has returned, the same operation called again on
    the same diagnostic, with the same registry, returns again and gives the
    event session the same events as the first call did: what is emitted does
    not depend on the state the earlier call left. *)
Theorem translation_repeatable (op : operation) (ev ev1 : sr_session_ctx_t) :
  run op ev = inr (tt, ev1) ->
  exists out ev2,
    emitted ev ev1 out /\
    run op ev1 = inr (tt, ev2) /\
    emitted ev1 ev2 out.
Proof.
  intros H1. destruct (framed_run_operation op) as [[f|[[] out]] Hr].
  - rewrite Hr in H1. discriminate H1.
  - rewrite Hr in H1. injection H1 as <-.
    exists out, (append_events out (append_events out ev)).
    split; [split; reflexivity|]. split; [apply Hr | split; reflexivity].
Qed.

Lemma edit_without_record (err_sess ev : sr_session_ctx_t) :
  sr_session_get_error err_sess = None ->
  np_err_sr2nc_edit err_sess ev = inl AssertionFailed.
Proof.
  intros H. unfold np_err_sr2nc_edit, bind. rewrite H. reflexivity.
Qed.

Ltac one_error_set :=
  eexists; split; [apply emitted_push|];
  intros e [[= <-]|[]];
  cbn [error_tag error_message error_app_tag error_info map fst];
  split; [discriminate|];
  split; [repeat constructor; simpl; tauto|];
  split;
    [ let H := fresh "H" in
      intros H; first [discriminate H | injection H as ->; reflexivity]
    | let H := fresh "H" in intros H; discriminate H ].

(** C8 as amended. Every error an operation builds and sets on the event
    session has a non-empty tag and info elements with distinct names, for
    every input.  Its message is a text that is not empty, with two
    exceptions: it is empty only when it is the empty message the caller
    passed to [np_err_sr2nc_same_ds], [np_err_bad_element],
    [np_err_invalid_value] or [np_err_ntf_sub_no_such_sub]; and it is NULL
    only in an instance-required error of [np_err_sr2nc_edit], after a
    failed [asprintf], on a diagnostic longer than [INT_MAX - 46].  The copy
    of the fallback branch is no error the translator builds. *)
Theorem emitted_errors_wellformed (op : operation) (ev ev' : sr_session_ctx_t) :
  run op ev = inr (tt, ev') ->
  exists out,
    emitted ev ev' out /\
    forall e, In (SetNetconfError e) out ->
      error_tag e <> [] /\
      NoDup (map fst (error_info e)) /\
      (error_message e = Some [] -> caller_message op = Some []) /\
      (error_message e = None ->
       error_app_tag e = Some (lit "instance-required") /\
       exists diag,
         edit_diagnostic op = Some diag /\ (INT_MAX < strlen diag + 46)%Z).
Proof.
  intros Hrun. destruct op; simpl in Hrun.
  - unfold np_err_sr2nc_lock_denied in Hrun.
    destruct (strstr _ _); injection Hrun as <-.
    + one_error_set.
    + exists []. split; [split; [reflexivity | symmetry; apply app_nil_r]|].
      intros e [].
  - unfold np_err_sr2nc_in_use in Hrun.
    destruct (strstr _ _); injection Hrun as <-.
    + one_error_set.
    + exists []. split; [split; [reflexivity | symmetry; apply app_nil_r]|].
      intros e [].
  - injection Hrun as <-. one_error_set.
  - injection Hrun as <-. one_error_set.
  - injection Hrun as <-. one_error_set.
  - destruct bad_elem_name; injection Hrun as <-; one_error_set.
  - injection Hrun as <-. one_error_set.
  - destruct (sr_session_get_error err_sess) as [err_info|] eqn:Hinfo.
    + destruct (edit_outcome err_sess ev err_info Hinfo)
        as [[[f Hf] _]|[_ [(e0 & He & Htag & Hnames & Hmsg)|Hdup]]].
      * rewrite Hf in Hrun. discriminate Hrun.
      * rewrite He in Hrun. injection Hrun as <-.
        eexists; split; [apply emitted_push|].
        intros e [[= <-]|[]]. split; [exact Htag|]. split; [exact Hnames|].
        unfold built_message_ok in Hmsg. split.
        -- intros H. rewrite H in Hmsg. exfalso. apply Hmsg. reflexivity.
        -- intros H. rewrite H in Hmsg. destruct Hmsg as [Happ Hlen].
           split; [exact Happ|]. exists (message (err_first err_info)).
           split; [|exact Hlen]. simpl. rewrite Hinfo. reflexivity.
      * rewrite Hdup in Hrun. injection Hrun as <-.
        eexists; split; [apply emitted_push|].
        intros e [H|[]]. discriminate H.
    + rewrite (edit_without_record _ _ Hinfo) in Hrun. discriminate Hrun.
Qed.

End OperationFacts.

Lemma translation_repeatable_witness :
  exists out ev2,
    emitted fresh_session
      (push_event (SetNetconfError
         {| error_type := lit "protocol"; error_tag := lit "lock-denied";
            error_app_tag := None; error_path := None;
            error_message := Some lock_denied_text;
            error_info := [(lit "session-id", lit "42")] |}) fresh_session) out /\
    run_operation Z (fun id => id) registry7
      (OpLockDenied (one_error (lit "abc DS-locked by session 7 now")))
      (push_event (SetNetconfError
         {| error_type := lit "protocol"; error_tag := lit "lock-denied";
            error_app_tag := None; error_path := None;
            error_message := Some lock_denied_text;
            error_info := [(lit "session-id", lit "42")] |}) fresh_session) =
    inr (tt, ev2) /\
    emitted
      (push_event (SetNetconfError
         {| error_type := lit "protocol"; error_tag := lit "lock-denied";
            error_app_tag := None; error_path := None;
            error_message := Some lock_denied_text;
            error_info := [(lit "session-id", lit "42")] |}) fresh_session)
      ev2 out.
Proof.
  apply (translation_repeatable Z (fun id => id) registry7
           (OpLockDenied (one_error (lit "abc DS-locked by session 7 now")))
           fresh_session).
  reflexivity.
Defined.

(** C8 as stated fails: [np_err_sr2nc_same_ds] passes the message of its
    caller on, and an empty one gives an error with an empty message; and the
    fallback of [np_err_sr2nc_edit] copies a record as it is, an empty
    message included. *)
Lemma same_ds_empty_message_counterexample :
  (exists e,
     np_err_sr2nc_same_ds [] fresh_session =
     inr (tt, push_event (SetNetconfError e) fresh_session) /\
     error_message e = Some [] /\
     ~ nc_error_wellformed e) /\
  (np_err_sr2nc_edit (failed_session []) fresh_session =
   inr (tt, push_event (DupError (one_error [])) fresh_session) /\
   message (err_first (one_error [])) = []).
Proof.
  split.
  - eexists. split; [reflexivity|]. split; [reflexivity|].
    intros (_ & (m & Hm & Hne) & _). injection Hm as <-. apply Hne. reflexivity.
  - split; reflexivity.
Qed.

Lemma emitted_errors_wellformed_witness :
  exists out,
    emitted fresh_session
      (push_event (SetNetconfError
         {| error_type := lit "application"; error_tag := lit "invalid-value";
            error_app_tag := None; error_path := None;
            error_message := Some (lit "Source and target match.");
            error_info := [] |}) fresh_session) out /\
    forall e, In (SetNetconfError e) out ->
      error_tag e <> [] /\
      NoDup (map fst (error_info e)) /\
      (error_message e = Some [] ->
       caller_message (OpSameDs (lit "Source and target match.")) = Some []) /\
      (error_message e = None ->
       error_app_tag e = Some (lit "instance-required") /\
       exists diag,
         edit_diagnostic (OpSameDs (lit "Source and target match.")) = Some diag /\
         (INT_MAX < strlen diag + 46)%Z).
Proof.
  apply (emitted_errors_wellformed Z (fun id => id) registry7
           (OpSameDs (lit "Source and target match.")) fresh_session).
  reflexivity.
Defined.

(** ** The event session as the source session

    [np_err_sr2nc_edit] reads of [err_sess] only its error record, which the
    errors set on a session leave alone: called with one session in both
    roles, a second call finds the record the first one found. *)

Lemma edit_reads_record_only (s1 s2 ev : sr_session_ctx_t) :
  sess_err_info s1 = sess_err_info s2 ->
  np_err_sr2nc_edit s1 ev = np_err_sr2nc_edit s2 ev.
Proof.
  intros H.
  unfold np_err_sr2nc_edit, sr_session_get_error, sr_session_dup_error, bind.
  rewrite H. reflexivity.
Qed.

Lemma edit_repeatable_aliased (ev ev1 : sr_session_ctx_t) :
  np_err_sr2nc_edit ev ev = inr (tt, ev1) ->
  exists out ev2,
    emitted ev ev1 out /\
    np_err_sr2nc_edit ev1 ev1 = inr (tt, ev2) /\
    emitted ev1 ev2 out.
Proof.
  intros H1. destruct (framed_edit ev) as [[f|[[] out]] Hr].
  - rewrite Hr in H1. discriminate H1.
  - rewrite Hr in H1. injection H1 as <-.
    exists out, (append_events out (append_events out ev)).
    split; [split; reflexivity|]. split; [|split; reflexivity].
    rewrite (edit_reads_record_only (append_events out ev) ev) by reflexivity.
    apply Hr.
Qed.

(** * Further properties of the translator *)

(** ** The extracted path *)

Lemma edit_get_path_spec_witness :
  edit_get_path msg_both_locations = spec_path msg_both_locations.
Proof.
  apply (edit_get_path_spec msg_both_locations).
  - intros off H. vm_compute in H. injection H as <-. vm_compute. discriminate.
  - intros off H. vm_compute in H. injection H as <-. vm_compute. discriminate.
Defined.

(** X4. The path is NULL exactly when the message contains neither
    "data location " nor "Schema location ". *)
Theorem edit_get_path_none_iff (msg : cstring) :
  edit_get_path msg = None <->
  ~ contains (lit "data location ") msg /\ ~ contains (lit "Schema location ") msg.
Proof.
  unfold edit_get_path.
  destruct (strstr msg (lit "data location ")) as [o|] eqn:D.
  - split; [discriminate|]. intros [H _]. exfalso. apply H.
    apply is_some_strstr. rewrite D. reflexivity.
  - destruct (strstr msg (lit "Schema location ")) as [o|] eqn:S.
    + split; [discriminate|]. intros [_ H]. exfalso. apply H.
      apply is_some_strstr. rewrite S. reflexivity.
    + split; [|reflexivity]. intros _.
      split; [exact (strstr_None _ _ D) | exact (strstr_None _ _ S)].
Qed.

(** X5. When the message contains "data location ", the path starts after
    its first occurrence whatever "Schema location " text the message holds
    besides, and with at least two characters left it is what follows the
    marker without its last two characters. *)
Theorem edit_get_path_data_location (pre post : cstring) :
  first_occurrence (lit "data location ") pre post
    (pre ++ lit "data location " ++ post) ->
  2 <= length post ->
  edit_get_path (pre ++ lit "data location " ++ post) =
  Some (firstn (length post - 2) post).
Proof.
  intros Hfirst Hlen. unfold edit_get_path.
  destruct (strstr (pre ++ lit "data location " ++ post) (lit "data location "))
    as [off|] eqn:E.
  - destruct (strstr_first _ _ _ E) as (pre' & post' & Hoff & Heq & Hmin).
    destruct Hfirst as [_ Hmin0].
    assert (Hsame : off = length pre).
    { subst off.
      destruct (Nat.lt_trichotomy (length pre') (length pre)) as [Hlt|[Heq'|Hgt]];
        [|exact Heq'|].
      - exfalso. apply (Hmin0 _ Hlt). exists post'.
        rewrite Heq at 1. apply skipn_length_app.
      - exfalso. apply (Hmin _ Hgt). exists post. apply skipn_length_app. }
    subst off. rewrite Hsame.
    replace (skipn (length pre + 14) (pre ++ lit "data location " ++ post))
      with post by (symmetry; apply skipn_past; reflexivity).
    rewrite strndup_cut2 by exact Hlen. reflexivity.
  - exfalso. apply (strstr_None _ _ E). exists pre, post. reflexivity.
Qed.

Lemma edit_get_path_data_location_witness :
  edit_get_path (lit "Too many. (Schema location /s/x, " ++ lit "data location " ++ lit "/d/y.)")
  = Some (firstn (length (lit "/d/y.)") - 2) (lit "/d/y.)")).
Proof.
  apply (edit_get_path_data_location (lit "Too many. (Schema location /s/x, ") (lit "/d/y.)")).
  - split; [reflexivity|].
    intros k Hk. apply starts_with_false.
    do 33 (destruct k as [|k]; [reflexivity|]). simpl in Hk. lia.
  - simpl. lia.
Defined.

(** ** The fallback and the preconditions *)

Lemma edit_fallback_copies_witness :
  np_err_sr2nc_edit (failed_session (lit "Some other validation failure.")) fresh_session =
  inr (tt, push_event (DupError (one_error (lit "Some other validation failure.")))
             fresh_session).
Proof.
  assert (P : forall p, starts_with p (lit "Some other validation failure.") = false ->
                        ~ has_prefix p (lit "Some other validation failure."))
    by (intros p; apply starts_with_false).
  apply (edit_fallback_copies (failed_session (lit "Some other validation failure."))
           fresh_session (one_error (lit "Some other validation failure."))).
  - reflexivity.
  - intros [H|[H|[H|[H|[[H _]|[[H _]|H]]]]]]; revert H; apply P; reflexivity.
  - intros [H _]; revert H; apply P; reflexivity.
Defined.

Lemma edit_returns_iff_witness :
  (exists ev', np_err_sr2nc_edit (failed_session msg_too_many_bare) fresh_session =
               inr (tt, ev')) <->
  edit_preconditions msg_too_many_bare.
Proof.
  apply (edit_returns_iff (failed_session msg_too_many_bare) fresh_session
           (one_error msg_too_many_bare)).
  reflexivity.
Defined.

(** ** The other branches of [np_err_sr2nc_edit] *)

(** The value of a branch test on a message whose start is known. *)
Ltac test_prefix H :=
  repeat match goal with
  | |- context [strncmp_eq ?s ?p ?n] =>
      first
        [ assert (strncmp_eq s p n = true) as -> by (rewrite H; reflexivity)
        | assert (strncmp_eq s p n = false) as -> by (rewrite H; reflexivity) ]
  end.

Ltac enter_edit Hinfo :=
  unfold np_err_sr2nc_edit, bind; rewrite Hinfo; cbn [assert_nonnull ret].

(** X6. For a message that starts with "Unique data leaf(s)" and has a path,
    [np_err_sr2nc_edit] sets one error: type protocol, tag operation-failed,
    application tag data-not-unique, no error path, the message "Unique
    constraint violated." and the info element non-unique holding the path. *)
Theorem unique_translation
    (err_sess ev : sr_session_ctx_t) (err_info : sr_error_info_t)
    (rest path : cstring) :
  sr_session_get_error err_sess = Some err_info ->
  message (err_first err_info) = lit "Unique data leaf(s)" ++ rest ->
  edit_get_path (message (err_first err_info)) = Some path ->
  np_err_sr2nc_edit err_sess ev =
  inr (tt, push_event (SetNetconfError
    {| error_type := lit "protocol";
       error_tag := lit "operation-failed";
       error_app_tag := Some (lit "data-not-unique");
       error_path := None;
       error_message := Some (lit "Unique constraint violated.");
       error_info := [(lit "non-unique", path)] |}) ev).
Proof.
  intros Hinfo Hstart Hpath. enter_edit Hinfo.
  set (msg := message (err_first err_info)) in *.
  rewrite Hpath. test_prefix Hstart. reflexivity.
Qed.

Lemma unique_translation_witness :
  np_err_sr2nc_edit (failed_session msg_unique) fresh_session =
  inr (tt, push_event (SetNetconfError
    {| error_type := lit "protocol";
       error_tag := lit "operation-failed";
       error_app_tag := Some (lit "data-not-unique");
       error_path := None;
       error_message := Some (lit "Unique constraint violated.");
       error_info := [(lit "non-unique", lit "/m:l[k='b']")] |}) fresh_session).
Proof.
  apply (unique_translation (failed_session msg_unique) fresh_session
           (one_error msg_unique)
           (lit " " ++ dquote :: lit "name" ++ dquote ::
            lit " not satisfied in " ++ dquote :: lit "/m:l[k='a']" ++ dquote ::
            lit " and " ++ dquote :: lit "/m:l[k='b']" ++ dquote ::
            lit ". (Schema location /m:l, data location /m:l[k='b'].)")).
  - reflexivity.
  - reflexivity.
  - reflexivity.
Defined.

(** X7. For a message that starts with "Too many" and has a path,
    [np_err_sr2nc_edit] sets one error: type protocol, tag operation-failed,
    application tag too-many-elements, the path as error path, the message
    "Too many elements." and no info element. *)
Theorem too_many_translation
    (err_sess ev : sr_session_ctx_t) (err_info : sr_error_info_t)
    (rest path : cstring) :
  sr_session_get_error err_sess = Some err_info ->
  message (err_first err_info) = lit "Too many" ++ rest ->
  edit_get_path (message (err_first err_info)) = Some path ->
  np_err_sr2nc_edit err_sess ev =
  inr (tt, push_event (SetNetconfError
    {| error_type := lit "protocol";
       error_tag := lit "operation-failed";
       error_app_tag := Some (lit "too-many-elements");
       error_path := Some path;
       error_message := Some (lit "Too many elements.");
       error_info := [] |}) ev).
Proof.
  intros Hinfo Hstart Hpath. enter_edit Hinfo.
  set (msg := message (err_first err_info)) in *.
  rewrite Hpath. test_prefix Hstart. reflexivity.
Qed.

Lemma too_many_translation_witness :
  np_err_sr2nc_edit (failed_session msg_too_many) fresh_session =
  inr (tt, push_event (SetNetconfError
    {| error_type := lit "protocol";
       error_tag := lit "operation-failed";
       error_app_tag := Some (lit "too-many-elements");
       error_path := Some (lit "/m:c");
       error_message := Some (lit "Too many elements.");
       error_info := [] |}) fresh_session).
Proof.
  apply (too_many_translation (failed_session msg_too_many) fresh_session
           (one_error msg_too_many)
           (lit " " ++ dquote :: lit "l" ++ dquote ::
            lit " instances. (Schema location /m:c/l, data location /m:c.)")).
  - reflexivity.
  - reflexivity.
  - reflexivity.
Defined.

(** X8. For a message that starts with "Too few" and has a path,
    [np_err_sr2nc_edit] sets one error: type protocol, tag operation-failed,
    application tag too-few-elements, the path as error path, the message
    "Too few elements." and no info element. *)
Theorem too_few_translation
    (err_sess ev : sr_session_ctx_t) (err_info : sr_error_info_t)
    (rest path : cstring) :
  sr_session_get_error err_sess = Some err_info ->
  message (err_first err_info) = lit "Too few" ++ rest ->
  edit_get_path (message (err_first err_info)) = Some path ->
  np_err_sr2nc_edit err_sess ev =
  inr (tt, push_event (SetNetconfError
    {| error_type := lit "protocol";
       error_tag := lit "operation-failed";
       error_app_tag := Some (lit "too-few-elements");
       error_path := Some path;
       error_message := Some (lit "Too few elements.");
       error_info := [] |}) ev).
Proof.
  intros Hinfo Hstart Hpath. enter_edit Hinfo.
  set (msg := message (err_first err_info)) in *.
  rewrite Hpath. test_prefix Hstart. reflexivity.
Qed.

Lemma too_few_translation_witness :
  np_err_sr2nc_edit (failed_session msg_too_few) fresh_session =
  inr (tt, push_event (SetNetconfError
    {| error_type := lit "protocol";
       error_tag := lit "operation-failed";
       error_app_tag := Some (lit "too-few-elements");
       error_path := Some (lit "/m:c/l");
       error_message := Some (lit "Too few elements.");
       error_info := [] |}) fresh_session).
Proof.
  apply (too_few_translation (failed_session msg_too_few) fresh_session
           (one_error msg_too_few)
           (lit " " ++ dquote :: lit "l" ++ dquote ::
            lit " instances. (Schema location /m:c/l.)")).
  - reflexivity.
  - reflexivity.
  - reflexivity.
Defined.

(** X9. For a message whose first 26 characters are "Invalid
    instance-identifie", that holds a double quote at offset 28, then the
    text [value] and the next double quote, contains "required instance not
    found" and has a path, [np_err_sr2nc_edit] sets one error: type protocol,
    tag data-missing, application tag instance-required, the path, and the
    message "Required instance-identifier " followed by the quoted [value]
    and " missing.".  The characters at offsets 26 and 27 are not looked at;
    the message, 40 characters longer than [value], has to fit the [int]
    that [asprintf] returns. *)
Theorem instance_identifier_translation
    (err_sess ev : sr_session_ctx_t) (err_info : sr_error_info_t)
    (c26 c27 : ascii) (value rest path : cstring) :
  sr_session_get_error err_sess = Some err_info ->
  message (err_first err_info) =
    lit "Invalid instance-identifie" ++ c26 :: c27 :: dquote :: value ++ dquote :: rest ->
  ~ In dquote value ->
  (Z.of_nat (length value) + 40 <= INT_MAX)%Z ->
  contains (lit "required instance not found") (message (err_first err_info)) ->
  edit_get_path (message (err_first err_info)) = Some path ->
  np_err_sr2nc_edit err_sess ev =
  inr (tt, push_event (SetNetconfError
    {| error_type := lit "protocol";
       error_tag := lit "data-missing";
       error_app_tag := Some (lit "instance-required");
       error_path := Some path;
       error_message :=
         Some (lit "Required instance-identifier " ++ dquote :: value ++
         dquote :: lit " missing.");
       error_info := [] |}) ev).
Proof.
  intros Hinfo Hstart Hq Hlen Hsub Hpath. enter_edit Hinfo.
  set (msg := message (err_first err_info)) in *.
  assert (C : forall s, char_at msg 28 s = inr (dquote, s))
    by (intros s; rewrite Hstart; reflexivity).
  assert (K : skipn 29 msg = value ++ dquote :: rest)
    by (rewrite Hstart; reflexivity).
  apply is_some_strstr in Hsub.
  rewrite Hpath, Hsub. test_prefix Hstart. cbn [andb]. rewrite C.
  unfold assert. rewrite Ascii.eqb_refl.
  rewrite (quoted_value_message_closed _ _ _ value rest 29 ev K Hq)
    by (simpl length; lia).
  reflexivity.
Qed.

Lemma instance_identifier_translation_witness :
  np_err_sr2nc_edit (failed_session msg_instid) fresh_session =
  inr (tt, push_event (SetNetconfError
    {| error_type := lit "protocol";
       error_tag := lit "data-missing";
       error_app_tag := Some (lit "instance-required");
       error_path := Some (lit "/p/q");
       error_message :=
         Some (lit "Required instance-identifier " ++ dquote :: lit "/m:t" ++
         dquote :: lit " missing.");
       error_info := [] |}) fresh_session).
Proof.
  apply (instance_identifier_translation (failed_session msg_instid) fresh_session
           (one_error msg_instid) "r"%char " "%char (lit "/m:t")
           (lit " value - required instance not found. (Schema location /m:c/i, data location /p/q.)")
           (lit "/p/q")).
  - reflexivity.
  - reflexivity.
  - vm_compute. intuition discriminate.
  - vm_compute. discriminate.
  - exists (lit "Invalid instance-identifier " ++ dquote :: lit "/m:t" ++ dquote ::
            lit " value - "),
      (lit ". (Schema location /m:c/i, data location /p/q.)").
    reflexivity.
  - reflexivity.
Defined.

(** ** Messages that break the format *)

Lemma is_some_strstr_false (hay needle : cstring) :
  ~ contains needle hay -> is_some (strstr hay needle) = false.
Proof.
  intros H. destruct (is_some (strstr hay needle)) eqn:E; [|reflexivity].
  exfalso. apply H. apply is_some_strstr. exact E.
Qed.

Lemma contains_length (needle hay : cstring) :
  contains needle hay -> length needle <= length hay.
Proof.
  intros (pre & post & ->). rewrite !length_app. lia.
Qed.

(** X10. The start "Invalid leafref value" alone does not select the leafref
    branch: a message with it that lacks "no existing target instance" has
    its error record copied. *)
Theorem leafref_without_target_copies
    (err_sess ev : sr_session_ctx_t) (err_info : sr_error_info_t) (rest : cstring) :
  sr_session_get_error err_sess = Some err_info ->
  message (err_first err_info) = lit "Invalid leafref value" ++ rest ->
  ~ contains (lit "no existing target instance") (message (err_first err_info)) ->
  np_err_sr2nc_edit err_sess ev = inr (tt, push_event (DupError err_info) ev).
Proof.
  intros Hinfo Hstart Hsub. enter_edit Hinfo.
  set (msg := message (err_first err_info)) in *.
  rewrite (is_some_strstr_false _ _ Hsub). test_prefix Hstart. cbn [andb].
  unfold sr_session_dup_error. unfold sr_session_get_error in Hinfo.
  rewrite Hinfo. reflexivity.
Qed.

Lemma leafref_without_target_copies_witness :
  np_err_sr2nc_edit (failed_session msg_leafref_other) fresh_session =
  inr (tt, push_event (DupError (one_error msg_leafref_other)) fresh_session).
Proof.
  apply (leafref_without_target_copies (failed_session msg_leafref_other) fresh_session
           (one_error msg_leafref_other)
           (lit " " ++ dquote :: lit "foo" ++ dquote ::
            lit " - unresolvable. (Schema location /m:c/r, data location /p/q.)")).
  - reflexivity.
  - reflexivity.
  - apply strstr_None. reflexivity.
Defined.

(** X11. A message that starts with "Unique data leaf(s)", "Too many" or
    "Too few" and contains neither location marker fails the [assert] on the
    path: the call aborts and sets no error. *)
Theorem edit_asserts_path
    (err_sess ev : sr_session_ctx_t) (err_info : sr_error_info_t) (rest : cstring) :
  sr_session_get_error err_sess = Some err_info ->
  message (err_first err_info) = lit "Unique data leaf(s)" ++ rest \/
  message (err_first err_info) = lit "Too many" ++ rest \/
  message (err_first err_info) = lit "Too few" ++ rest ->
  ~ contains (lit "data location ") (message (err_first err_info)) ->
  ~ contains (lit "Schema location ") (message (err_first err_info)) ->
  np_err_sr2nc_edit err_sess ev = inl AssertionFailed.
Proof.
  intros Hinfo Hstart Hd Hs. enter_edit Hinfo.
  set (msg := message (err_first err_info)) in *.
  rewrite (proj2 (edit_get_path_none_iff msg) (conj Hd Hs)).
  destruct Hstart as [Hstart|[Hstart|Hstart]]; test_prefix Hstart; reflexivity.
Qed.

Lemma edit_asserts_path_witness :
  np_err_sr2nc_edit (failed_session msg_too_many_bare) fresh_session =
  inl AssertionFailed.
Proof.
  apply (edit_asserts_path (failed_session msg_too_many_bare) fresh_session
           (one_error msg_too_many_bare) (lit " elements.")).
  - reflexivity.
  - right; left; reflexivity.
  - apply strstr_None. reflexivity.
  - apply strstr_None. reflexivity.
Defined.

(** X12. A message that starts with "Must condition" and has no '(' makes
    [strrchr] return NULL, which is decremented and subtracted from: the
    behaviour is undefined, with or without a path, and the [assert] on the
    path is not reached. *)
Theorem must_without_paren_undefined
    (err_sess ev : sr_session_ctx_t) (err_info : sr_error_info_t) (rest : cstring) :
  sr_session_get_error err_sess = Some err_info ->
  message (err_first err_info) = lit "Must condition" ++ rest ->
  ~ In "("%char (message (err_first err_info)) ->
  np_err_sr2nc_edit err_sess ev = inl UndefinedBehaviour.
Proof.
  intros Hinfo Hstart Hparen. enter_edit Hinfo.
  set (msg := message (err_first err_info)) in *.
  rewrite (proj2 (strrchr_None msg "("%char) Hparen).
  test_prefix Hstart. reflexivity.
Qed.

Lemma must_without_paren_undefined_witness :
  np_err_sr2nc_edit (failed_session msg_must_bare) fresh_session =
  inl UndefinedBehaviour.
Proof.
  apply (must_without_paren_undefined (failed_session msg_must_bare) fresh_session
           (one_error msg_must_bare)
           (lit " not satisfied, data location /m:c/l.)")).
  - reflexivity.
  - reflexivity.
  - apply strrchr_None. reflexivity.
Defined.

(** X13. In the branch for "Mandatory choice" the path is handed to
    [strrchr] before the [assert] on it: a message without a path, or with
    a path that has no '/', gives undefined behaviour, and no message of this
    branch makes the [assert] fail. *)
Theorem mandatory_choice_undefined
    (err_sess ev : sr_session_ctx_t) (err_info : sr_error_info_t) (rest : cstring) :
  sr_session_get_error err_sess = Some err_info ->
  message (err_first err_info) = lit "Mandatory choice" ++ rest ->
  (edit_get_path (message (err_first err_info)) = None \/
   (exists p, edit_get_path (message (err_first err_info)) = Some p /\
              ~ In "/"%char p) ->
   np_err_sr2nc_edit err_sess ev = inl UndefinedBehaviour) /\
  np_err_sr2nc_edit err_sess ev <> inl AssertionFailed.
Proof.
  intros Hinfo Hstart. enter_edit Hinfo.
  set (msg := message (err_first err_info)) in *.
  test_prefix Hstart. cbn [andb]. split.
  - intros [Hnone|(p & Hp & Hslash)].
    + rewrite Hnone. reflexivity.
    + rewrite Hp. cbn [use_ptr ret].
      rewrite (proj2 (strrchr_None p "/"%char) Hslash). reflexivity.
  - destruct (edit_get_path msg) as [p|]; cbn [use_ptr ret]; [|discriminate].
    destruct (strrchr p "/"%char); cbn [use_ptr ret assert_nonnull]; discriminate.
Qed.

Lemma mandatory_choice_undefined_witness :
  np_err_sr2nc_edit (failed_session msg_choice_bare) fresh_session =
  inl UndefinedBehaviour.
Proof.
  apply (proj1 (mandatory_choice_undefined (failed_session msg_choice_bare)
                  fresh_session (one_error msg_choice_bare) (lit " missing.")
                  eq_refl eq_refl)).
  left. reflexivity.
Defined.

(** X14. A message of the leafref branch whose character at offset 22 is not
    a double quote fails the [assert] on it; the read at offset 22 is always
    inside the message, which the text "no existing target instance" makes
    long enough. *)
Theorem leafref_unquoted_asserts
    (err_sess ev : sr_session_ctx_t) (err_info : sr_error_info_t) (rest : cstring) :
  sr_session_get_error err_sess = Some err_info ->
  message (err_first err_info) = lit "Invalid leafref value" ++ rest ->
  contains (lit "no existing target instance") (message (err_first err_info)) ->
  nth_error (message (err_first err_info)) 22 <> Some dquote ->
  np_err_sr2nc_edit err_sess ev = inl AssertionFailed.
Proof.
  intros Hinfo Hstart Hsub Hq. enter_edit Hinfo.
  set (msg := message (err_first err_info)) in *.
  pose proof (contains_length _ _ Hsub) as Hlen.
  apply is_some_strstr in Hsub. rewrite Hsub.
  test_prefix Hstart. cbn [andb]. unfold char_at.
  destruct (nth_error msg 22) as [c|] eqn:N.
  - cbn [ret]. unfold assert.
    destruct (Ascii.eqb_spec c dquote) as [->|Hc]; [contradiction | reflexivity].
  - exfalso. apply nth_error_None in N. simpl in Hlen. lia.
Qed.

Lemma leafref_unquoted_asserts_witness :
  np_err_sr2nc_edit (failed_session msg_leafref_unquoted) fresh_session =
  inl AssertionFailed.
Proof.
  apply (leafref_unquoted_asserts (failed_session msg_leafref_unquoted) fresh_session
           (one_error msg_leafref_unquoted)
           (lit " foo - no existing target instance. (data location /p/q.)")).
  - reflexivity.
  - reflexivity.
  - exists (lit "Invalid leafref value foo - "), (lit ". (data location /p/q.)").
    reflexivity.
  - vm_compute. discriminate.
Defined.

(** ** The printed session ID *)

Lemma of_uint_acc_lower (d : Decimal.uint) (acc : positive) :
  (Zpos acc * 10 ^ Z.of_nat (Decimal.nb_digits d) <= Zpos (Pos.of_uint_acc d acc))%Z.
Proof.
  revert acc. induction d; intros acc;
    cbn [Decimal.nb_digits Pos.of_uint_acc];
    [rewrite Z.pow_0_r; lia | ..];
    (rewrite Nat2Z.inj_succ, Z.pow_succ_r by lia;
     eapply Z.le_trans; [|apply IHd];
     assert (0 < 10 ^ Z.of_nat (Decimal.nb_digits d))%Z by (apply Z.pow_pos_nonneg; lia);
     nia).
Qed.

(** A number printed without leading zeros has one digit or is at least
    the power of ten of its length. *)
Lemma normal_uint_lower (d : Decimal.uint) :
  Decimal.unorm d = d ->
  Decimal.nb_digits d = 1 \/
  (10 ^ (Z.of_nat (Decimal.nb_digits d) - 1) <= Z.of_N (Pos.of_uint d))%Z.
Proof.
  intros Hn. destruct d as [|d|d|d|d|d|d|d|d|d|d];
    try (right; cbn [Decimal.nb_digits Pos.of_uint Z.of_N];
         rewrite Nat2Z.inj_succ;
         replace (Z.succ (Z.of_nat (Decimal.nb_digits d)) - 1)%Z
           with (Z.of_nat (Decimal.nb_digits d)) by lia;
         eapply Z.le_trans; [|apply of_uint_acc_lower];
         assert (0 < 10 ^ Z.of_nat (Decimal.nb_digits d))%Z
           by (apply Z.pow_pos_nonneg; lia);
         lia).
  - discriminate Hn.
  - left. rewrite DecimalFacts.unorm_D0 in Hn.
    destruct d as [|d|d|d|d|d|d|d|d|d|d]; [reflexivity | ..];
      (exfalso;
       match type of Hn with Decimal.unorm ?u = _ =>
         assert (Hle : Decimal.nb_digits (Decimal.unorm u) <= Decimal.nb_digits u)
           by (apply DecimalFacts.nb_digits_unorm; discriminate)
       end;
       rewrite Hn in Hle; simpl in Hle; lia).
Qed.

Lemma length_string_of_uint (d : Decimal.uint) :
  length (lit (NilEmpty.string_of_uint d)) = Decimal.nb_digits d.
Proof.
  unfold lit. induction d; simpl; congruence.
Qed.

Lemma normal_uint_digits (d : Decimal.uint) :
  Decimal.unorm d = d -> (Z.of_N (Pos.of_uint d) < 2 ^ 32)%Z ->
  1 <= Decimal.nb_digits d <= 10.
Proof.
  intros Hnorm Hval.
  destruct (normal_uint_lower d Hnorm) as [H1|Hlow]; [lia|].
  split.
  - destruct d; [discriminate Hnorm | simpl; lia ..].
  - destruct (Nat.le_gt_cases (Decimal.nb_digits d) 10) as [Hle|Hgt]; [exact Hle|].
    exfalso.
    assert (10 ^ 10 <= 10 ^ (Z.of_nat (Decimal.nb_digits d) - 1))%Z
      by (apply Z.pow_le_mono_r; lia).
    assert (2 ^ 32 < 10 ^ 10)%Z by reflexivity. lia.
Qed.

Lemma sprintf_u32_length (v : Z) :
  1 <= length (sprintf_u32 v) <= 10.
Proof.
  unfold sprintf_u32.
  assert (H : (0 <= v mod 2 ^ 32 < 2 ^ 32)%Z) by (apply Z.mod_pos_bound; reflexivity).
  assert (Hn : (Z.of_N (Z.to_N (v mod 2 ^ 32)) < 2 ^ 32)%Z) by (rewrite Z2N.id; lia).
  revert Hn. generalize (Z.to_N (v mod 2 ^ 32)). intros n Hn.
  assert (Hnorm : Decimal.unorm (N.to_uint n) = N.to_uint n).
  { rewrite <- DecimalN.Unsigned.to_of, DecimalN.Unsigned.of_to. reflexivity. }
  assert (Hval : (Z.of_N (Pos.of_uint (N.to_uint n)) < 2 ^ 32)%Z).
  { change (Pos.of_uint (N.to_uint n)) with (N.of_uint (N.to_uint n)).
    rewrite DecimalN.Unsigned.of_to. exact Hn. }
  pose proof (normal_uint_digits _ Hnorm Hval) as Hd.
  destruct (N.to_uint n) as [|d|d|d|d|d|d|d|d|d|d]; [discriminate Hnorm | ..];
    unfold NilZero.string_of_uint; rewrite length_string_of_uint; exact Hd.
Qed.

(** ** The vocabulary of the errors *)

(** One step of a walk through the branches of [np_err_sr2nc_edit]. *)
Ltac edit_step :=
  first
    [ progress cbn [assert_nonnull use_ptr ptr_pred assert undefined ret andb]
    | match goal with
      | |- context [if ?b then _ else _] => destruct b
      | |- context [strrchr ?a ?b] => destruct (strrchr a b) as [[|?]|]
      | |- context [strchr ?a ?b] => destruct (strchr a b)
      | |- context [nth_error ?a ?b] => destruct (nth_error a b)
      end ].

Lemma edit_error_shape_all (err_sess ev : sr_session_ctx_t) :
  match np_err_sr2nc_edit err_sess ev with
  | inl _ => True
  | inr (_, ev') =>
      (exists info, sr_session_get_error err_sess = Some info /\
                    ev' = push_event (DupError info) ev) \/
      (exists e, ev' = push_event (SetNetconfError e) ev /\
                 error_type e = lit "protocol" /\
                 (error_tag e = lit "operation-failed" \/
                  error_tag e = lit "data-missing") /\
                 error_app_tag e <> None /\
                 length (error_info e) <= 1 /\
                 (error_path e <> None \/ error_info e <> []) /\
                 Forall (fun nv => In (fst nv) [lit "non-unique"; lit "missing-choice"])
                   (error_info e))
  end.
Proof.
  unfold np_err_sr2nc_edit, bind, sr_session_get_error, char_at,
    quoted_value_message, bind, assert, sr_session_set_netconf_error,
    sr_session_dup_error.
  destruct (sess_err_info err_sess) as [info|]; [|exact I].
  cbn [assert_nonnull ret].
  destruct (edit_get_path (message (err_first info)));
  repeat edit_step;
    first
      [ exact I
      | left; exists info; split; reflexivity
      | right; eexists; split; [reflexivity|];
        cbn [error_type error_tag error_app_tag error_info error_path length];
        repeat split; try discriminate; auto;
        first [left; discriminate | right; discriminate
              | repeat (apply Forall_cons || apply Forall_nil); simpl; tauto ] ].
Qed.

(** X15. Whatever [np_err_sr2nc_edit] adds to the event session is the copy
    of the source record or one error of type protocol whose tag is
    operation-failed or data-missing, with an application tag, at most one
    info element, named non-unique or missing-choice, and an error path or
    the info element, never neither. *)
Theorem edit_error_shape (err_sess ev ev' : sr_session_ctx_t) :
  np_err_sr2nc_edit err_sess ev = inr (tt, ev') ->
  (exists info, sr_session_get_error err_sess = Some info /\
                ev' = push_event (DupError info) ev) \/
  (exists e, ev' = push_event (SetNetconfError e) ev /\
             error_type e = lit "protocol" /\
             (error_tag e = lit "operation-failed" \/ error_tag e = lit "data-missing") /\
             error_app_tag e <> None /\
             length (error_info e) <= 1 /\
             (error_path e <> None \/ error_info e <> []) /\
             Forall (fun nv => In (fst nv) [lit "non-unique"; lit "missing-choice"])
               (error_info e)).
Proof.
  intros H. pose proof (edit_error_shape_all err_sess ev) as Hall.
  rewrite H in Hall. exact Hall.
Qed.

Lemma edit_error_shape_witness :
  (exists info, sr_session_get_error (failed_session msg_too_many) = Some info /\
                push_event (SetNetconfError
                  {| error_type := lit "protocol";
                     error_tag := lit "operation-failed";
                     error_app_tag := Some (lit "too-many-elements");
                     error_path := Some (lit "/m:c");
                     error_message := Some (lit "Too many elements.");
                     error_info := [] |}) fresh_session =
                push_event (DupError info) fresh_session) \/
  (exists e, push_event (SetNetconfError
               {| error_type := lit "protocol";
                  error_tag := lit "operation-failed";
                  error_app_tag := Some (lit "too-many-elements");
                  error_path := Some (lit "/m:c");
                  error_message := Some (lit "Too many elements.");
                  error_info := [] |}) fresh_session =
             push_event (SetNetconfError e) fresh_session /\
             error_type e = lit "protocol" /\
             (error_tag e = lit "operation-failed" \/ error_tag e = lit "data-missing") /\
             error_app_tag e <> None /\
             length (error_info e) <= 1 /\
             (error_path e <> None \/ error_info e <> []) /\
             Forall (fun nv => In (fst nv) [lit "non-unique"; lit "missing-choice"])
               (error_info e)).
Proof.
  apply (edit_error_shape (failed_session msg_too_many) fresh_session).
  reflexivity.
Defined.

Section VocabularyFacts.

Variable nc_session : Type.
Variable nc_session_get_id : nc_session -> Z.
Variable np_get_nc_sess_by_id : Z -> Z -> option nc_session.

Ltac in_vocabulary :=
  eexists; split; [apply emitted_push|];
  intros e [[= <-]|[]];
  cbn [error_type error_tag error_info];
  split; [simpl; tauto|]; split; [simpl; tauto|];
  repeat (apply Forall_cons || apply Forall_nil); simpl; tauto.

(** X16. Every error any of the eight operations sets has the type protocol
    or application, one of the seven tags lock-denied, in-use, invalid-value,
    missing-element, bad-element, operation-failed and data-missing, and info
    elements named session-id, bad-element, non-unique or missing-choice
    only. *)
Theorem operation_vocabulary (op : operation) (ev ev' : sr_session_ctx_t) :
  run_operation nc_session nc_session_get_id np_get_nc_sess_by_id op ev = inr (tt, ev') ->
  exists out,
    emitted ev ev' out /\
    forall e, In (SetNetconfError e) out ->
      In (error_type e) used_types /\
      In (error_tag e) used_tags /\
      Forall (fun nv => In (fst nv) used_info_names) (error_info e).
Proof.
  intros Hrun. destruct op; simpl in Hrun.
  - unfold np_err_sr2nc_lock_denied in Hrun.
    destruct (strstr _ _); injection Hrun as <-.
    + in_vocabulary.
    + exists []. split; [split; [reflexivity | symmetry; apply app_nil_r]|].
      intros e [].
  - unfold np_err_sr2nc_in_use in Hrun.
    destruct (strstr _ _); injection Hrun as <-.
    + in_vocabulary.
    + exists []. split; [split; [reflexivity | symmetry; apply app_nil_r]|].
      intros e [].
  - injection Hrun as <-. in_vocabulary.
  - injection Hrun as <-. in_vocabulary.
  - injection Hrun as <-. in_vocabulary.
  - destruct bad_elem_name; injection Hrun as <-; in_vocabulary.
  - injection Hrun as <-. in_vocabulary.
  - pose proof (edit_error_shape_all err_sess ev) as Hall. rewrite Hrun in Hall.
    destruct Hall as [(info & _ & ->)|(e0 & -> & Hty & Htag & _ & _ & _ & Hinfo)].
    + eexists; split; [apply emitted_push|]. intros e [H|[]]. discriminate H.
    + eexists; split; [apply emitted_push|]. intros e [[= <-]|[]].
      rewrite Hty. split; [simpl; tauto|].
      split; [destruct Htag as [-> | ->]; simpl; tauto|].
      eapply Forall_impl; [|exact Hinfo].
      intros nv [<-|[<-|[]]]; simpl; tauto.
Qed.

(** X17. The session ID both lock translators print has from one to ten
    characters, whatever the registry returns: with its terminating NUL it
    fits the 11 bytes of [buf]. *)
Theorem lock_session_id_fits_buf (err_info : sr_error_info_t) (ev : sr_session_ctx_t) :
  (exists out,
     np_err_sr2nc_lock_denied nc_session nc_session_get_id np_get_nc_sess_by_id
       err_info ev = inr (tt, append_events out ev) /\
     forall e name value,
       In (SetNetconfError e) out -> In (name, value) (error_info e) ->
       1 <= length value /\ length value + 1 <= 11) /\
  (exists out,
     np_err_sr2nc_in_use nc_session nc_session_get_id np_get_nc_sess_by_id
       err_info ev = inr (tt, append_events out ev) /\
     forall e name value,
       In (SetNetconfError e) out -> In (name, value) (error_info e) ->
       1 <= length value /\ length value + 1 <= 11).
Proof.
  unfold np_err_sr2nc_lock_denied, np_err_sr2nc_in_use.
  destruct (strstr (message (err_first err_info)) (lit "DS-locked by session "))
    as [ptr|].
  - split; (eexists; split; [reflexivity|]);
      intros e name value [[= <-]|[]] [[= _ <-]|[]];
      match goal with
      | |- 1 <= length (sprintf_u32 ?v) /\ _ =>
          pose proof (sprintf_u32_length v); lia
      end.
  - split; (exists []; split; [rewrite append_events_nil; reflexivity|]);
      intros e name value [].
Qed.

End VocabularyFacts.

Lemma operation_vocabulary_witness :
  exists out,
    emitted fresh_session
      (push_event (SetNetconfError
         {| error_type := lit "protocol"; error_tag := lit "missing-element";
            error_app_tag := None; error_path := None;
            error_message := Some (lit "An expected element is missing.");
            error_info := [(lit "bad-element", lit "target")] |}) fresh_session) out /\
    forall e, In (SetNetconfError e) out ->
      In (error_type e) used_types /\
      In (error_tag e) used_tags /\
      Forall (fun nv => In (fst nv) used_info_names) (error_info e).
Proof.
  apply (operation_vocabulary Z (fun id => id) registry7
           (OpMissingElement (lit "target")) fresh_session).
  reflexivity.
Defined.

(** ** The session number read after the marker *)

Lemma isdigit_not_space (c : ascii) : isdigit c = true -> isspace c = false.
Proof.
  unfold isdigit, isspace. intros H.
  apply andb_true_iff in H as [H1 H2].
  apply Nat.leb_le in H1. apply Nat.leb_le in H2.
  destruct (Nat.eqb_spec (nat_of_ascii c) 32) as [E|_]; [lia|].
  destruct (Nat.leb_spec 9 (nat_of_ascii c)) as [_|_]; [|reflexivity].
  destruct (Nat.leb_spec (nat_of_ascii c) 13) as [E|_]; [lia | reflexivity].
Qed.

Lemma isdigit_not_sign (c : ascii) :
  isdigit c = true -> Ascii.eqb c "-"%char = false /\ Ascii.eqb c "+"%char = false.
Proof.
  intros H. split.
  - destruct (Ascii.eqb_spec c "-"%char) as [->|_]; [discriminate H | reflexivity].
  - destruct (Ascii.eqb_spec c "+"%char) as [->|_]; [discriminate H | reflexivity].
Qed.

Lemma string_of_uint_digits (d : Decimal.uint) :
  Forall (fun c => isdigit c = true) (lit (NilEmpty.string_of_uint d)).
Proof.
  unfold lit. induction d; simpl; constructor; auto.
Qed.

Lemma sprintf_u32_digits (v : Z) :
  Forall (fun c => isdigit c = true) (sprintf_u32 v).
Proof.
  unfold sprintf_u32, NilZero.string_of_uint.
  destruct (N.to_uint (Z.to_N (v mod 2 ^ 32)));
    first [apply string_of_uint_digits | repeat constructor].
Qed.

Lemma digits_value_app (ds rest : cstring) (acc : Z) :
  Forall (fun c => isdigit c = true) ds -> no_leading_digit rest = true ->
  digits_value (ds ++ rest) acc = digits_value ds acc.
Proof.
  intros Hds Hrest. revert acc. induction Hds as [|c ds Hc _ IH]; intros acc.
  - destruct rest as [|c rest]; [reflexivity|]. simpl in *.
    destruct (isdigit c); [discriminate Hrest | reflexivity].
  - simpl. rewrite Hc. apply IH.
Qed.

(** [atoi] of digits followed by other text is the value of the digits, as
    far as it fits an [int]. *)
Lemma atoi_digits (ds rest : cstring) :
  ds <> [] -> Forall (fun c => isdigit c = true) ds ->
  no_leading_digit rest = true ->
  (0 <= digits_value ds 0 <= INT_MAX)%Z ->
  atoi (ds ++ rest) = digits_value ds 0.
Proof.
  intros Hne Hds Hrest Hval. unfold atoi, strtol.
  destruct ds as [|c ds]; [contradiction|].
  pose proof (Forall_inv Hds) as Hc.
  change ((c :: ds) ++ rest) with (c :: ds ++ rest).
  cbn [skip_spaces]. rewrite (isdigit_not_space c Hc).
  destruct (isdigit_not_sign c Hc) as [-> ->].
  change (c :: ds ++ rest) with ((c :: ds) ++ rest).
  rewrite (digits_value_app (c :: ds) rest 0 Hds Hrest).
  unfold INT_MAX, LONG_MIN, LONG_MAX in *.
  rewrite Z.min_r, Z.max_r by lia.
  apply int_of_long_small. unfold INT_MAX. lia.
Qed.

Lemma atoi_sprintf_u32 (v : Z) (rest : cstring) :
  (0 <= v <= INT_MAX)%Z -> no_leading_digit rest = true ->
  atoi (sprintf_u32 v ++ rest) = v.
Proof.
  intros Hv Hrest.
  assert (Hmod : (v mod 2 ^ 32 = v)%Z)
    by (apply Z.mod_small; unfold INT_MAX in Hv; lia).
  rewrite atoi_digits.
  - rewrite sprintf_u32_reads_back. exact Hmod.
  - intros E. pose proof (sprintf_u32_length v) as Hl. rewrite E in Hl. simpl in Hl. lia.
  - apply sprintf_u32_digits.
  - exact Hrest.
  - rewrite sprintf_u32_reads_back, Hmod. exact Hv.
Qed.

Lemma atoi_no_number (s : cstring) : no_number s = true -> atoi s = 0%Z.
Proof.
  unfold no_number, atoi, strtol. destruct s as [|c s]; [reflexivity|].
  intros H. apply negb_true_iff in H.
  apply orb_false_iff in H as [H Hplus]. apply orb_false_iff in H as [H Hminus].
  apply orb_false_iff in H as [Hspace Hdigit].
  cbn [skip_spaces]. rewrite Hspace, Hminus, Hplus.
  cbn [digits_value]. rewrite Hdigit. reflexivity.
Qed.

Section SessionNumberFacts.

Variable nc_session : Type.
Variable nc_session_get_id : nc_session -> Z.
Variable np_get_nc_sess_by_id : Z -> Z -> option nc_session.

Lemma lock_denied_after_marker (err_info : sr_error_info_t) (ev : sr_session_ctx_t)
    (pre post : cstring) :
  message (err_first err_info) = pre ++ lock_marker ++ post ->
  strstr (message (err_first err_info)) lock_marker = Some (length pre) ->
  np_err_sr2nc_lock_denied nc_session nc_session_get_id np_get_nc_sess_by_id
    err_info ev =
  inr (tt, push_event (SetNetconfError
    {| error_type := lit "protocol";
       error_tag := lit "lock-denied";
       error_app_tag := None;
       error_path := None;
       error_message := Some lock_denied_text;
       error_info :=
         [(lit "session-id",
           sprintf_u32 (match np_get_nc_sess_by_id (atoi post) 0 with
                        | Some s => nc_session_get_id s
                        | None => 0%Z
                        end))] |}) ev).
Proof.
  intros Hmsg Hfirst. unfold np_err_sr2nc_lock_denied.
  fold lock_marker lock_denied_text. rewrite Hfirst. rewrite Hmsg.
  cbv zeta. rewrite skipn_lock_marker. reflexivity.
Qed.

(** X18. When the text after the first marker holds no number (it is empty,
    or starts with a character that is no white space, sign or digit),
    [np_err_sr2nc_lock_denied] asks the registry for session 0 and reports
    what that lookup gives. *)
Theorem lock_denied_without_number (err_info : sr_error_info_t) (ev : sr_session_ctx_t)
    (pre post : cstring) :
  message (err_first err_info) = pre ++ lock_marker ++ post ->
  strstr (message (err_first err_info)) lock_marker = Some (length pre) ->
  no_number post = true ->
  np_err_sr2nc_lock_denied nc_session nc_session_get_id np_get_nc_sess_by_id
    err_info ev =
  inr (tt, push_event (SetNetconfError
    {| error_type := lit "protocol";
       error_tag := lit "lock-denied";
       error_app_tag := None;
       error_path := None;
       error_message := Some lock_denied_text;
       error_info :=
         [(lit "session-id",
           sprintf_u32 (match np_get_nc_sess_by_id 0 0 with
                        | Some s => nc_session_get_id s
                        | None => 0%Z
                        end))] |}) ev).
Proof.
  intros Hmsg Hfirst Hpost.
  rewrite (lock_denied_after_marker err_info ev pre post Hmsg Hfirst).
  rewrite (atoi_no_number post Hpost). reflexivity.
Qed.

(** X19. A session number between 0 and [INT_MAX] that stands in decimal
    after the first marker, followed by the end of the message or by a
    character that is no digit, is the number [np_err_sr2nc_lock_denied]
    hands to the registry. *)
Theorem lock_denied_reads_session_number
    (err_info : sr_error_info_t) (ev : sr_session_ctx_t)
    (pre rest : cstring) (sr_id : Z) :
  message (err_first err_info) = pre ++ lock_marker ++ sprintf_u32 sr_id ++ rest ->
  strstr (message (err_first err_info)) lock_marker = Some (length pre) ->
  (0 <= sr_id <= INT_MAX)%Z ->
  no_leading_digit rest = true ->
  np_err_sr2nc_lock_denied nc_session nc_session_get_id np_get_nc_sess_by_id
    err_info ev =
  inr (tt, push_event (SetNetconfError
    {| error_type := lit "protocol";
       error_tag := lit "lock-denied";
       error_app_tag := None;
       error_path := None;
       error_message := Some lock_denied_text;
       error_info :=
         [(lit "session-id",
           sprintf_u32 (match np_get_nc_sess_by_id sr_id 0 with
                        | Some s => nc_session_get_id s
                        | None => 0%Z
                        end))] |}) ev).
Proof.
  intros Hmsg Hfirst Hid Hrest.
  rewrite (lock_denied_after_marker err_info ev pre _ Hmsg Hfirst).
  rewrite (atoi_sprintf_u32 sr_id rest Hid Hrest). reflexivity.
Qed.

End SessionNumberFacts.

Lemma lock_denied_without_number_witness :
  np_err_sr2nc_lock_denied Z (fun id => id) registry7
    (one_error (lit "DS-locked by session unknown")) fresh_session =
  inr (tt, push_event (SetNetconfError
    {| error_type := lit "protocol";
       error_tag := lit "lock-denied";
       error_app_tag := None;
       error_path := None;
       error_message := Some lock_denied_text;
       error_info :=
         [(lit "session-id",
           sprintf_u32 (match registry7 0 0 with
                        | Some s => s
                        | None => 0%Z
                        end))] |}) fresh_session).
Proof.
  apply (lock_denied_without_number Z (fun id => id) registry7
           (one_error (lit "DS-locked by session unknown")) fresh_session
           [] (lit "unknown")).
  - reflexivity.
  - reflexivity.
  - reflexivity.
Defined.

Lemma lock_denied_reads_session_number_witness :
  np_err_sr2nc_lock_denied Z (fun id => id) registry7
    (one_error (lit "abc DS-locked by session 7 now")) fresh_session =
  inr (tt, push_event (SetNetconfError
    {| error_type := lit "protocol";
       error_tag := lit "lock-denied";
       error_app_tag := None;
       error_path := None;
       error_message := Some lock_denied_text;
       error_info :=
         [(lit "session-id",
           sprintf_u32 (match registry7 7 0 with
                        | Some s => s
                        | None => 0%Z
                        end))] |}) fresh_session).
Proof.
  apply (lock_denied_reads_session_number Z (fun id => id) registry7
           (one_error (lit "abc DS-locked by session 7 now")) fresh_session
           (lit "abc ") (lit " now") 7).
  - reflexivity.
  - reflexivity.
  - vm_compute. split; discriminate.
  - reflexivity.
Defined.

(** ** Calls in sequence *)

Section SequenceFacts.

Variable nc_session : Type.
Variable nc_session_get_id : nc_session -> Z.
Variable np_get_nc_sess_by_id : Z -> Z -> option nc_session.

Local Abbreviation run_op :=
  (run_operation nc_session nc_session_get_id np_get_nc_sess_by_id).

(** X20. A call of any of the eight operations that returns has added at
    most one event to those of the event session; it has added none only
    when it is one of the two lock translators and the message lacks the
    marker. *)
Theorem operation_adds_at_most_one (op : operation) (ev ev' : sr_session_ctx_t) :
  run_op op ev = inr (tt, ev') ->
  exists out,
    sess_ev_err ev' = sess_ev_err ev ++ out /\ length out <= 1 /\
    (out = [] ->
     exists err_info,
       (op = OpLockDenied err_info \/ op = OpInUse err_info) /\
       ~ contains lock_marker (message (err_first err_info))).
Proof.
  intros Hrun. destruct op; simpl in Hrun.
  - unfold np_err_sr2nc_lock_denied in Hrun. fold lock_marker in Hrun.
    destruct (strstr _ _) eqn:E; injection Hrun as <-.
    + eexists; split; [reflexivity|]. split; [simpl; lia | discriminate].
    + exists []. split; [symmetry; apply app_nil_r|].
      split; [simpl; lia|]. intros _. exists err_info.
      split; [left; reflexivity | exact (strstr_None _ _ E)].
  - unfold np_err_sr2nc_in_use in Hrun. fold lock_marker in Hrun.
    destruct (strstr _ _) eqn:E; injection Hrun as <-.
    + eexists; split; [reflexivity|]. split; [simpl; lia | discriminate].
    + exists []. split; [symmetry; apply app_nil_r|].
      split; [simpl; lia|]. intros _. exists err_info.
      split; [right; reflexivity | exact (strstr_None _ _ E)].
  - injection Hrun as <-.
    eexists; split; [reflexivity|]. split; [simpl; lia | discriminate].
  - injection Hrun as <-.
    eexists; split; [reflexivity|]. split; [simpl; lia | discriminate].
  - injection Hrun as <-.
    eexists; split; [reflexivity|]. split; [simpl; lia | discriminate].
  - destruct bad_elem_name; injection Hrun as <-;
      (eexists; split; [reflexivity|]; split; [simpl; lia | discriminate]).
  - injection Hrun as <-.
    eexists; split; [reflexivity|]. split; [simpl; lia | discriminate].
  - pose proof (edit_error_shape_all err_sess ev) as Hall. rewrite Hrun in Hall.
    destruct Hall as [(info & _ & ->)|(e0 & -> & _)];
      (eexists; split; [reflexivity|]; split; [simpl; lia | discriminate]).
Qed.

(** X21. What an operation adds to the event session does not depend on
    what an earlier operation has put there: after a first call, a second
    call returns and adds the events it adds when called first, behind
    those of the first call. *)
Theorem operations_in_sequence (op1 op2 : operation) (ev ev1 ev2 : sr_session_ctx_t) :
  run_op op1 ev = inr (tt, ev1) ->
  run_op op2 ev = inr (tt, ev2) ->
  exists out1 out2,
    emitted ev ev1 out1 /\ emitted ev ev2 out2 /\
    run_op op2 ev1 = inr (tt, append_events (out1 ++ out2) ev).
Proof.
  intros H1 H2.
  destruct (framed_run_operation nc_session nc_session_get_id np_get_nc_sess_by_id op1)
    as [[f|[[] out1]] Hr1]; rewrite Hr1 in H1; [discriminate H1|].
  destruct (framed_run_operation nc_session nc_session_get_id np_get_nc_sess_by_id op2)
    as [[f|[[] out2]] Hr2]; rewrite Hr2 in H2; [discriminate H2|].
  injection H1 as <-. injection H2 as <-.
  exists out1, out2. split; [split; reflexivity|]. split; [split; reflexivity|].
  rewrite Hr2, append_events_app. reflexivity.
Qed.

End SequenceFacts.

Lemma operation_adds_at_most_one_witness :
  exists out,
    sess_ev_err fresh_session = sess_ev_err fresh_session ++ out /\ length out <= 1 /\
    (out = [] ->
     exists err_info,
       (OpInUse (one_error (lit "Locked.")) = OpLockDenied err_info \/
        OpInUse (one_error (lit "Locked.")) = OpInUse err_info) /\
       ~ contains lock_marker (message (err_first err_info))).
Proof.
  apply (operation_adds_at_most_one Z (fun id => id) registry7
           (OpInUse (one_error (lit "Locked."))) fresh_session).
  reflexivity.
Defined.

Lemma operations_in_sequence_witness :
  exists out1 out2,
    emitted fresh_session
      (push_event (SetNetconfError
         {| error_type := lit "protocol"; error_tag := lit "missing-element";
            error_app_tag := None; error_path := None;
            error_message := Some (lit "An expected element is missing.");
            error_info := [(lit "bad-element", lit "target")] |}) fresh_session) out1 /\
    emitted fresh_session
      (push_event (SetNetconfError
         {| error_type := lit "application"; error_tag := lit "invalid-value";
            error_app_tag := None; error_path := None;
            error_message := Some (lit "Source and target match.");
            error_info := [] |}) fresh_session) out2 /\
    run_operation Z (fun id => id) registry7 (OpSameDs (lit "Source and target match."))
      (push_event (SetNetconfError
         {| error_type := lit "protocol"; error_tag := lit "missing-element";
            error_app_tag := None; error_path := None;
            error_message := Some (lit "An expected element is missing.");
            error_info := [(lit "bad-element", lit "target")] |}) fresh_session) =
    inr (tt, append_events (out1 ++ out2) fresh_session).
Proof.
  apply (operations_in_sequence Z (fun id => id) registry7
           (OpMissingElement (lit "target")) (OpSameDs (lit "Source and target match."))
           fresh_session).
  - reflexivity.
  - reflexivity.
Defined.

(** ** The path after "Schema location " *)

Lemma strstr_first_occurrence (needle pre post hay : cstring) :
  first_occurrence needle pre post hay -> strstr hay needle = Some (length pre).
Proof.
  intros [Hhay Hmin0].
  destruct (strstr hay needle) as [off|] eqn:E.
  - destruct (strstr_first _ _ _ E) as (pre' & post' & Hoff & Heq & Hmin).
    subst off. f_equal.
    destruct (Nat.lt_trichotomy (length pre') (length pre)) as [Hlt|[Heq'|Hgt]];
      [|exact Heq'|].
    + exfalso. apply (Hmin0 _ Hlt). exists post'.
      rewrite Heq at 1. apply skipn_length_app.
    + exfalso. apply (Hmin _ Hgt). exists post.
      rewrite Hhay at 1. apply skipn_length_app.
  - exfalso. apply (strstr_None _ _ E). exists pre, post. exact Hhay.
Qed.

(** X1. When the message does not contain "data location ", the path starts
    16 characters after the first "Schema location ", and with at least two
    characters left it is what follows the marker without its last two
    characters. *)
Theorem edit_get_path_schema_location (msg pre post : cstring) :
  ~ contains (lit "data location ") msg ->
  first_occurrence (lit "Schema location ") pre post msg ->
  2 <= length post ->
  edit_get_path msg = Some (firstn (length post - 2) post).
Proof.
  intros Hdata Hfirst Hlen. unfold edit_get_path.
  rewrite (strstr_first_occurrence _ _ _ _ Hfirst).
  destruct (strstr msg (lit "data location ")) as [off|] eqn:E.
  - exfalso. apply Hdata. apply is_some_strstr. rewrite E. reflexivity.
  - destruct Hfirst as [-> _].
    replace (skipn (length pre + 16) (pre ++ lit "Schema location " ++ post))
      with post by (symmetry; apply skipn_past; reflexivity).
    rewrite strndup_cut2 by exact Hlen. reflexivity.
Qed.

Lemma edit_get_path_schema_location_witness :
  edit_get_path msg_too_few =
  Some (firstn (length (lit "/m:c/l.)") - 2) (lit "/m:c/l.)")).
Proof.
  apply (edit_get_path_schema_location msg_too_few
           (lit "Too few " ++ dquote :: lit "l" ++ dquote :: lit " instances. (")
           (lit "/m:c/l.)")).
  - apply strstr_None. reflexivity.
  - split; [reflexivity|].
    intros k Hk. apply starts_with_false.
    do 24 (destruct k as [|k]; [reflexivity|]). simpl in Hk. lia.
  - simpl. lia.
Defined.
